(** * go-life: Conway's Game of Life on a wrap-around grid

    A shallow embedding of the simulation code of go-life (the cell type with
    its methods, and the loop of main.go): the [cell] record, [liveNeighbors] with its wrapping
    closure [add], the per-cell update [checkState], the pass that [main]
    runs once per frame, and [makeCells].

    Go's [int] is modelled as a 64-bit two's complement integer carried by
    [Z]; a slice is a [list] indexed through [index], which fails where Go
    panics.  The grid [cells] is a slice of slices of pointers to cells that
    [makeCells] allocates one by one, so that no two positions share a cell:
    the store is the grid itself, and a write through the pointer held at
    row [i], column [j] is an update of that position. *)

From Stdlib Require Import ZArith Lia QArith Bool.
From stdpp Require Import base option list.

Local Open Scope Z_scope.

(** ** Go's [int] *)

Module GoInt.

Definition min_int : Z := - 2 ^ 63.
Definition max_int : Z := 2 ^ 63 - 1.

(** Two's complement wrap-around of a mathematical integer. *)
Definition wrap (z : Z) : Z := (z + 2 ^ 63) mod 2 ^ 64 - 2 ^ 63.

Definition add (a b : Z) : Z := wrap (a + b).
Definition sub (a b : Z) : Z := wrap (a - b).

Definition in_range (z : Z) : Prop := min_int <= z <= max_int.

End GoInt.

(** ** Slices *)

Definition len {A} (l : list A) : Z := Z.of_nat (length l).

(** [l[i]]: [None] stands for the run-time panic on an index out of range. *)
Definition index {A} (l : list A) (i : Z) : option A :=
  if i <? 0 then None else l !! Z.to_nat i.

(** ** Cells *)

Record cell := mkCell {
  drawable : N;
  alive : bool;
  nextState : bool;
  x : Z;
  y : Z
}.

Definition set_alive (b : bool) (c : cell) : cell :=
  mkCell (drawable c) b (nextState c) (x c) (y c).

Definition set_nextState (b : bool) (c : cell) : cell :=
  mkCell (drawable c) (alive c) b (x c) (y c).

Abbreviation grid := (list (list cell)).

(** The cell held at row [i], column [j]. *)
Definition cellAt (cells : grid) (i j : nat) : option cell :=
  row ← cells !! i; row !! j.

(** A write through the pointer held at row [i], column [j]. *)
Definition store (i j : nat) (c : cell) (cells : grid) : grid :=
  alter (fun row => <[j := c]> row) i cells.

(** ** liveNeighbors *)

(** The closure [add] of [liveNeighbors]; the captured counter is passed in
    and returned. *)
Definition add (cells : grid) (x y : Z) (liveCount : Z) : option Z :=
  let x :=
    if x =? len cells then 0
    else if x =? -1 then GoInt.sub (len cells) 1
    else x in
  row ← index cells x;
  let y :=
    if y =? len row then 0
    else if y =? -1 then GoInt.sub (len row) 1
    else y in
  c ← index row y;
  Some (if alive c then GoInt.add liveCount 1 else liveCount).

Definition liveNeighbors (c : cell) (cells : grid) : option Z :=
  let liveCount := 0 in
  liveCount ← add cells (GoInt.sub (x c) 1) (y c) liveCount;
  liveCount ← add cells (GoInt.add (x c) 1) (y c) liveCount;
  liveCount ← add cells (x c) (GoInt.add (y c) 1) liveCount;
  liveCount ← add cells (x c) (GoInt.sub (y c) 1) liveCount;
  liveCount ← add cells (GoInt.sub (x c) 1) (GoInt.add (y c) 1) liveCount;
  liveCount ← add cells (GoInt.add (x c) 1) (GoInt.add (y c) 1) liveCount;
  liveCount ← add cells (GoInt.sub (x c) 1) (GoInt.sub (y c) 1) liveCount;
  liveCount ← add cells (GoInt.add (x c) 1) (GoInt.sub (y c) 1) liveCount;
  Some liveCount.

(** ** checkState *)

(** The branches of [checkState] after the count is known: [alive] is the
    cell's flag, [nextState] the value the field holds on entry to the
    branches, and the result is the value it holds on exit. *)
Definition rule (alive : bool) (liveCount : Z) (nextState : bool) : bool :=
  if alive then
    let nextState := if liveCount <? 2 then false else nextState in
    let nextState :=
      if (liveCount =? 2) || (liveCount =? 3) then true else nextState in
    let nextState := if liveCount >? 3 then false else nextState in
    nextState
  else
    if liveCount =? 3 then true else nextState.

(** [cells[i][j].checkState(cells)]. *)
Definition checkState (i j : nat) (cells : grid) : option grid :=
  c ← cellAt cells i j;
  let c := set_alive (nextState c) c in
  let c := set_nextState (alive c) c in
  let cells := store i j c cells in
  liveCount ← liveNeighbors c cells;
  let c := set_nextState (rule (alive c) liveCount (nextState c)) c in
  Some (store i j c cells).

(** ** The pass of [main]'s loop *)

(** [for _, c := range cells[i] { c.checkState(cells) }], over the
    columns [js]. *)
Fixpoint checkRow (i : nat) (js : list nat) (cells : grid) : option grid :=
  match js with
  | [] => Some cells
  | j :: js => cells ← checkState i j cells; checkRow i js cells
  end.

(** [for x := range cells { ... }], over the rows [ks]. *)
Fixpoint checkRows (ks : list nat) (cells : grid) : option grid :=
  match ks with
  | [] => Some cells
  | i :: ks =>
      row ← cells !! i;
      cells ← checkRow i (seq 0 (length row)) cells;
      checkRows ks cells
  end.

(** One generation advance: the two nested loops of [main]. *)
Definition advance (cells : grid) : option grid :=
  checkRows (seq 0 (length cells)) cells.

(** [n] passes in a row. *)
Fixpoint advances (n : nat) (cells : grid) : option grid :=
  match n with
  | O => Some cells
  | S n => cells ← advance cells; advances n cells
  end.

(** ** Grids given by a picture *)

(** The [rows] by [columns] grid in which the cell at [(i, j)] has both
    flags equal to [f i j], as [makeCells] leaves them. *)
Definition gridOf (rows columns : nat) (f : nat -> nat -> bool) : grid :=
  map (fun i =>
         map (fun j => mkCell 0 (f i j) (f i j) (Z.of_nat i) (Z.of_nat j))
             (seq 0 columns))
      (seq 0 rows).

Definition aliveAt (cells : grid) (i j : nat) : bool :=
  match cellAt cells i j with Some c => alive c | None => false end.

Definition nextAt (cells : grid) (i j : nat) : bool :=
  match cellAt cells i j with Some c => nextState c | None => false end.

Definition picture (cells : grid) : list (list bool) :=
  map (map alive) cells.

(** ** Well-formed grids *)

(** What [makeCells] builds: [R] rows of [C] cells, each cell knowing its own
    position, and both lengths within Go's [int]. *)
Record wf (R C : nat) (cells : grid) : Prop := mkWf {
  wf_rows : length cells = R;
  wf_rows_int : Z.of_nat R <= GoInt.max_int;
  wf_columns_int : Z.of_nat C <= GoInt.max_int;
  wf_columns : forall i row, cells !! i = Some row -> length row = C;
  wf_coords : forall i j c,
    cellAt cells i j = Some c -> x c = Z.of_nat i /\ y c = Z.of_nat j
}.

(** The wrap of [add], for a side of length [n]. *)
Definition wrapIndex (n i : Z) : Z :=
  if i =? n then 0 else if i =? -1 then n - 1 else i.

Definition offsets : list (Z * Z) :=
  [(-1, 0); (1, 0); (0, 1); (0, -1); (-1, 1); (1, 1); (-1, -1); (1, -1)].

(** The coordinates that [liveNeighbors] reads for the cell at [(i, j)] of an
    [R] by [C] grid, in the order of the eight calls of [add]. *)
Definition examined (R C : nat) (i j : nat) : list (Z * Z) :=
  map (fun d => (wrapIndex (Z.of_nat R) (Z.of_nat i + fst d),
                 wrapIndex (Z.of_nat C) (Z.of_nat j + snd d)))
      offsets.

(** [cells[x][y].alive] at [int] coordinates, [false] where Go would panic. *)
Definition aliveZ (cells : grid) (p : Z * Z) : bool :=
  match index cells (fst p) with
  | Some row =>
      match index row (snd p) with Some c => alive c | None => false end
  | None => false
  end.

Definition countAlive (cells : grid) (ps : list (Z * Z)) : Z :=
  Z.of_nat (length (filter (fun p => aliveZ cells p = true) ps)).

(** ** makeCells *)

(** [rand.Float64] returns a [float64] in [[0, 1)]; such a value is a
    rational number and [<] on [float64] is [<] on rationals.  The generator
    seeded by [rand.Seed] is the sequence of the draws to come. *)
Definition rng := nat -> Q.

Definition Float64 (r : rng) : Q * rng := (r O, fun n => r (S n)).

Definition Qlt_bool (a b : Q) : bool := negb (Qle_bool b a).

Section Config.

(** The constants [rows], [columns] and [threshold] of main.go, and the
    vertex array object that [makeVao] hands out for the tile of a cell. *)
Variables (rows columns : nat) (threshold : Q) (makeVao : Z -> Z -> N).

Definition newCell (x y : Z) : cell := mkCell (makeVao x y) false false x y.

(** [for y := ...; y < columns; y++ { ... }] with [n] rounds to go. *)
Fixpoint makeCells_columns (n : nat) (x y : nat) (cells : grid) (r : rng)
  : grid * rng :=
  match n with
  | O => (cells, r)
  | S n =>
      let c := newCell (Z.of_nat x) (Z.of_nat y) in
      let '(d, r) := Float64 r in
      let c := set_alive (Qlt_bool d threshold) c in
      let c := set_nextState (alive c) c in
      let cells := alter (fun row => row ++ [c]) x cells in
      makeCells_columns n x (S y) cells r
  end.

(** [for x := ...; x < rows; x++ { ... }] with [n] rounds to go. *)
Fixpoint makeCells_rows (n : nat) (x : nat) (cells : grid) (r : rng)
  : grid * rng :=
  match n with
  | O => (cells, r)
  | S n =>
      let '(cells, r) := makeCells_columns columns x 0 cells r in
      makeCells_rows n (S x) cells r
  end.

Definition makeCells (r : rng) : grid * rng :=
  let cells := replicate rows [] in
  makeCells_rows rows 0%nat cells r.

(** The cell that [makeCells] builds at [(x, y)] from the draw [d]. *)
Definition drawn (x y : nat) (d : Q) : cell :=
  mkCell (makeVao (Z.of_nat x) (Z.of_nat y))
         (Qlt_bool d threshold) (Qlt_bool d threshold)
         (Z.of_nat x) (Z.of_nat y).

End Config.

(** The constants of main.go; [threshold] is 0.15 as a [float64]. *)
Module Main.
Definition rows : nat := 20.
Definition columns : nat := 20.
Definition threshold : Q := 5404319552844595 # 36028797018963968.
End Main.

(** ** Pictures *)

(** A grid shows [f] when both flags of every cell are [f] of its position,
    the state [makeCells] leaves a grid in. *)
Definition shows (f : nat -> nat -> bool) (cells : grid) : Prop :=
  forall i j c, cellAt cells i j = Some c ->
    alive c = f i j /\ nextState c = f i j.

Definition dead (_ _ : nat) : bool := false.

(** One side of the block: the two indices from [a] on. *)
Definition span (a k : nat) : bool := (a <=? k)%nat && (k <=? a + 1)%nat.

(** The 2 by 2 block with corner [(a, b)]. *)
Definition block (a b : nat) (i j : nat) : bool := span a i && span b j.

(** Three cells in row 2, columns 1 to 3, and three in column 2, rows 1
    to 3. *)
Definition blinkerH (i j : nat) : bool :=
  (i =? 2)%nat && ((1 <=? j)%nat && (j <=? 3)%nat).

Definition blinkerV (i j : nat) : bool :=
  (j =? 2)%nat && ((1 <=? i)%nat && (i <=? 3)%nat).


(** The number of live examined neighbours of [(i, j)] in the picture [f]. *)
Definition pictureCount (f : nat -> nat -> bool) (R C i j : nat) : Z :=
  foldr (fun p n => Z.b2z (f (Z.to_nat (fst p)) (Z.to_nat (snd p))) + n) 0
        (examined R C i j).

(** A grid is at rest when no cell has a pending change and the rule
    keeps every cell as it is. *)
Definition atRest (R C : nat) (cells : grid) : Prop :=
  forall i j c, cellAt cells i j = Some c ->
    nextState c = alive c /\
    rule (alive c) (countAlive cells (examined R C i j)) (alive c) = alive c.

(** The cell that [checkState] leaves at its position: the pending state is
    published, and the next one is the rule's output for the count [n]. *)
Definition checked (c : cell) (n : Z) : cell :=
  mkCell (drawable c) (nextState c)
         (rule (nextState c) n (nextState c)) (x c) (y c).

(** The grid at the moment [checkState] counts: the cell's own flag is
    already overwritten. *)
Definition published (i j : nat) (c : cell) (cells : grid) : grid :=
  store i j (mkCell (drawable c) (nextState c) (nextState c) (x c) (y c)) cells.

(** ** Runs of the program's grid *)

(** The grid of main.go's size showing [f], after [n] passes. *)
Definition afterPasses (n : nat) (f : nat -> nat -> bool) : option grid :=
  advances n (gridOf Main.rows Main.columns f).


(** The B3/S23 table. *)
Definition table (alive : bool) (n : Z) : bool :=
  if alive then (n =? 2) || (n =? 3) else n =? 3.

(** ** The order of a pass *)

(** The loops of a pass visit [(i', j')] before [(i, j)]. *)
Definition before (i j i' j' : nat) : bool :=
  (i' <? i)%nat || ((i' =? i)%nat && (j' <? j)%nat).

(** [cells[x][y].nextState] at [int] coordinates, [false] where Go would
    panic. *)
Definition pendingZ (cells : grid) (p : Z * Z) : bool :=
  match index cells (fst p) with
  | Some row =>
      match index row (snd p) with Some c => nextState c | None => false end
  | None => false
  end.

(** The flag that the count of the cell at [(i, j)] reads at [p] during a
    pass over [cells]: the pending state of the cell itself and of the
    cells visited before it, the [alive] flag of the cells still to come. *)
Definition midAlive (cells : grid) (i j : nat) (p : Z * Z) : bool :=
  let a := Z.to_nat (fst p) in
  let b := Z.to_nat (snd p) in
  if before i j a b || ((a =? i)%nat && (b =? j)%nat)
  then pendingZ cells p else aliveZ cells p.

Definition midCount (cells : grid) (R C i j : nat) : Z :=
  foldr (fun p n => Z.b2z (midAlive cells i j p) + n) 0 (examined R C i j).

(** The grid [g] is what a pass over [cells] has made of it when it is about
    to visit [(i, j)]. *)
Definition swept (R C : nat) (cells : grid) (i j : nat) (g : grid) : Prop :=
  wf R C g /\
  forall i' j' c, cellAt cells i' j' = Some c ->
    cellAt g i' j' =
    Some (if before i j i' j' then checked c (midCount cells R C i' j')
          else c).

(** Every cell carries no pending change, as after [makeCells]. *)
Definition fresh (cells : grid) : Prop :=
  forall i j c, cellAt cells i j = Some c -> nextState c = alive c.

(** ** Drawing *)

(** The calls into OpenGL and GLFW that drawing makes, in the order made. *)
Inductive glCall :=
  | Clear (mask : Z)
  | UseProgram (program : N)
  | BindVertexArray (array : N)
  | DrawArrays (mode first count : Z)
  | PollEvents
  | SwapBuffers.

(** The constants of the OpenGL binding that drawing names. *)
Module GL.
Definition TRIANGLES : Z := 4.
Definition COLOR_BUFFER_BIT : Z := 16384.
Definition DEPTH_BUFFER_BIT : Z := 256.
End GL.

(** The two triangles of a tile; every coordinate is a [float32] exactly. *)
Definition squarePoints : list Q :=
  [ -(1 # 2); 1 # 2; 0;   -(1 # 2); -(1 # 2); 0;   1 # 2; -(1 # 2); 0;
    -(1 # 2); 1 # 2; 0;   1 # 2; 1 # 2; 0;         1 # 2; -(1 # 2); 0 ]%Q.

(** The conversion [int32(...)] of an [int]. *)
Definition int32 (z : Z) : Z := (z + 2 ^ 31) mod 2 ^ 32 - 2 ^ 31.

(** [c.draw()]. *)
Definition cell_draw (c : cell) : list glCall :=
  if negb (alive c) then []
  else [BindVertexArray (drawable c);
        DrawArrays GL.TRIANGLES 0 (int32 (len squarePoints ÷ 3))].

(** [draw(cells, window, program)]. *)
Definition draw (cells : grid) (program : N) : list glCall :=
  [Clear (Z.lor GL.COLOR_BUFFER_BIT GL.DEPTH_BUFFER_BIT); UseProgram program]
  ++ concat (map (fun row => concat (map cell_draw row)) cells)
  ++ [PollEvents; SwapBuffers].

(** One round of [main]'s loop: a pass, then the drawing of the grid. *)
Definition frame (program : N) (cells : grid) : option (grid * list glCall) :=
  cells ← advance cells; Some (cells, draw cells program).

(** The vertex arrays that a sequence of calls binds, in order. *)
Definition boundArrays (calls : list glCall) : list N :=
  omap (fun call =>
          match call with BindVertexArray a => Some a | _ => None end) calls.

(** The cells of a grid in the order of the loops. *)
Definition cellsInOrder (cells : grid) : list cell := concat cells.

(** The picture with the one live cell [(a, b)]. *)
Definition lone (a b : nat) (i j : nat) : bool := (i =? a)%nat && (j =? b)%nat.

(** * Properties *)

(** ** Integers and slices *)

Lemma wrap_in_range z : GoInt.in_range z -> GoInt.wrap z = z.
Proof.
  unfold GoInt.in_range, GoInt.min_int, GoInt.max_int, GoInt.wrap.
  intros Hz. rewrite Z.mod_small; lia.
Qed.

Lemma index_Some {A} (l : list A) (i : nat) :
  index l (Z.of_nat i) = l !! i.
Proof.
  unfold index. destruct (Z.ltb_spec (Z.of_nat i) 0); [lia|].
  by rewrite Nat2Z.id.
Qed.

Lemma index_in_range {A} (l : list A) (z : Z) a :
  index l z = Some a -> 0 <= z < len l.
Proof.
  unfold index, len. destruct (Z.ltb_spec z 0); [done|].
  intros Hl%lookup_lt_Some. lia.
Qed.

(** ** The store *)

Lemma cellAt_Some cells i j c :
  cellAt cells i j = Some c <->
  exists row, cells !! i = Some row /\ row !! j = Some c.
Proof.
  unfold cellAt. destruct (cells !! i) as [row|]; simpl.
  - split; [eauto|]. by intros (? & [= <-] & ?).
  - split; [done|]. by intros (? & ? & ?).
Qed.

Lemma cellAt_store_eq cells i j c c' :
  cellAt cells i j = Some c -> cellAt (store i j c' cells) i j = Some c'.
Proof.
  intros (row & Hi & Hj)%cellAt_Some. unfold cellAt, store.
  rewrite list_lookup_alter_eq, Hi. simpl.
  apply list_lookup_insert_eq. by eapply lookup_lt_Some.
Qed.

Lemma cellAt_store_ne cells i j i' j' c' :
  (i, j) <> (i', j') ->
  cellAt (store i j c' cells) i' j' = cellAt cells i' j'.
Proof.
  intros Hne. unfold cellAt, store.
  destruct (decide (i = i')) as [<-|Hi].
  - rewrite list_lookup_alter_eq. destruct (cells !! i) as [row|]; [|done].
    simpl. apply list_lookup_insert_ne. congruence.
  - by rewrite list_lookup_alter_ne.
Qed.

Lemma store_id cells i j c :
  cellAt cells i j = Some c -> store i j c cells = cells.
Proof.
  intros (row & Hi & Hj)%cellAt_Some. unfold store.
  apply list_eq. intros k. destruct (decide (i = k)) as [<-|Hk].
  - rewrite list_lookup_alter_eq, Hi. simpl. by rewrite list_insert_id.
  - by rewrite list_lookup_alter_ne.
Qed.

Lemma store_length i j c cells : length (store i j c cells) = length cells.
Proof. apply length_alter. Qed.

Lemma store_row_length i j c cells k row :
  store i j c cells !! k = Some row ->
  exists row', cells !! k = Some row' /\ length row = length row'.
Proof.
  unfold store. destruct (decide (i = k)) as [<-|Hk].
  - rewrite list_lookup_alter_eq. destruct (cells !! i) as [row'|]; [|done].
    simpl. intros [= <-]. eexists. split; [done|]. apply length_insert.
  - rewrite list_lookup_alter_ne by done. eauto.
Qed.

Lemma wf_store R C cells i j c c' :
  wf R C cells -> cellAt cells i j = Some c ->
  x c' = x c -> y c' = y c ->
  wf R C (store i j c' cells).
Proof.
  intros [H1 H2 H3 H4 H5] Hc Hx Hy. split; [|done|done| |].
  - by rewrite store_length.
  - intros k row (row' & Hk & ->)%store_row_length. eauto.
  - intros i' j' d. destruct (decide ((i, j) = (i', j'))) as [[= <- <-]|Hne].
    + rewrite (cellAt_store_eq _ _ _ c) by done. intros [= <-].
      rewrite Hx, Hy. eauto.
    + rewrite cellAt_store_ne by done. eauto.
Qed.

(** ** Counting neighbours *)

Lemma countAlive_nil cells : countAlive cells [] = 0.
Proof. done. Qed.

Lemma countAlive_cons cells p ps :
  countAlive cells (p :: ps) = Z.b2z (aliveZ cells p) + countAlive cells ps.
Proof.
  unfold countAlive. rewrite filter_cons.
  destruct (decide (aliveZ cells p = true)) as [->|Hp].
  - simpl length. simpl Z.b2z. lia.
  - apply not_true_is_false in Hp. by rewrite Hp.
Qed.

Lemma countAlive_range cells ps :
  0 <= countAlive cells ps <= Z.of_nat (length ps).
Proof.
  induction ps as [|p ps IH]; [done|].
  rewrite countAlive_cons. simpl length.
  destruct (aliveZ cells p); simpl Z.b2z; lia.
Qed.

Lemma wrapIndex_range n i :
  1 <= n -> -1 <= i <= n -> 0 <= wrapIndex n i < n.
Proof.
  intros Hn Hi. unfold wrapIndex.
  destruct (Z.eqb_spec i n); [lia|]. destruct (Z.eqb_spec i (-1)); lia.
Qed.

(** One call of the closure on a well-formed grid, at an offset of an
    in-range cell: no panic, and the counter grows by the flag read at the
    wrapped coordinates. *)
Lemma add_wf R C cells xz yz n :
  wf R C cells -> (1 <= R)%nat -> (1 <= C)%nat ->
  -1 <= xz <= Z.of_nat R -> -1 <= yz <= Z.of_nat C -> 0 <= n < 8 ->
  add cells xz yz n =
  Some (n + Z.b2z (aliveZ cells (wrapIndex (Z.of_nat R) xz,
                                 wrapIndex (Z.of_nat C) yz))).
Proof.
  intros [H1 H2 H3 H4 H5] HR HC Hx Hy Hn.
  assert (Hsub : forall m : nat, (1 <= m)%nat ->
            Z.of_nat m <= GoInt.max_int -> GoInt.sub (Z.of_nat m) 1 = Z.of_nat m - 1).
  { intros m Hm Hmax. apply wrap_in_range.
    unfold GoInt.in_range, GoInt.min_int, GoInt.max_int in *. lia. }
  unfold add, len. rewrite H1, Hsub by done.
  fold (wrapIndex (Z.of_nat R) xz).
  pose proof (wrapIndex_range (Z.of_nat R) xz ltac:(lia) Hx) as Hwx.
  pose proof (wrapIndex_range (Z.of_nat C) yz ltac:(lia) Hy) as Hwy.
  unfold aliveZ. simpl fst. simpl snd.
  destruct (index cells (wrapIndex (Z.of_nat R) xz)) as [row|] eqn:Hrow.
  - simpl. assert (length row = C) as Hlen.
    { unfold index in Hrow. destruct (_ <? 0); [done|]. eauto. }
    rewrite Hlen, Hsub by done. fold (wrapIndex (Z.of_nat C) yz).
    destruct (index row (wrapIndex (Z.of_nat C) yz)) as [c|] eqn:Hc.
    + simpl. destruct (alive c); simpl; [|f_equal; lia].
      f_equal. apply wrap_in_range.
      unfold GoInt.in_range, GoInt.min_int, GoInt.max_int. lia.
    + exfalso. unfold index in Hc.
      destruct (Z.ltb_spec (wrapIndex (Z.of_nat C) yz) 0); [lia|].
      apply lookup_ge_None_1 in Hc. lia.
  - exfalso. unfold index in Hrow.
    destruct (Z.ltb_spec (wrapIndex (Z.of_nat R) xz) 0); [lia|].
    apply lookup_ge_None_1 in Hrow. lia.
Qed.

(** [liveNeighbors] on a well-formed grid never panics and returns the
    number of live cells among the examined coordinates. *)
Lemma liveNeighbors_examined R C cells i j c :
  wf R C cells -> cellAt cells i j = Some c ->
  liveNeighbors c cells = Some (countAlive cells (examined R C i j)).
Proof.
  intros Hwf Hc. pose proof Hwf as [H1 H2 H3 H4 H5].
  destruct (H5 _ _ _ Hc) as [Hx Hy].
  apply cellAt_Some in Hc as (row & Hi & Hj).
  pose proof (lookup_lt_Some _ _ _ Hi) as HiR. rewrite H1 in HiR.
  pose proof (lookup_lt_Some _ _ _ Hj) as HjC. rewrite (H4 _ _ Hi) in HjC.
  assert (Hw : forall z, -1 <= z <= GoInt.max_int -> GoInt.wrap z = z).
  { intros z Hz. apply wrap_in_range.
    unfold GoInt.in_range, GoInt.min_int, GoInt.max_int in *. lia. }
  unfold liveNeighbors, GoInt.add, GoInt.sub. rewrite Hx, Hy.
  rewrite !Hw by lia.
  repeat (rewrite (add_wf R C) by
            (first [done | lia |
                    repeat match goal with
                      | |- context [Z.b2z (aliveZ ?g ?p)] =>
                          destruct (aliveZ g p)
                      end; simpl Z.b2z; lia]);
          simpl mbind).
  unfold examined, offsets. simpl map.
  change (Z.of_nat i + -1) with (Z.of_nat i - 1).
  change (Z.of_nat j + -1) with (Z.of_nat j - 1).
  rewrite !countAlive_cons, countAlive_nil.
  rewrite !Z.add_0_r. f_equal. lia.
Qed.

(** ** checkState on a well-formed grid *)

Lemma store_store i j c1 c2 cells :
  store i j c2 (store i j c1 cells) = store i j c2 cells.
Proof.
  unfold store. rewrite list_alter_alter_eq. apply list_alter_ext; [|done].
  intros row _. simpl. apply list_insert_insert_eq.
Qed.

Lemma wf_published R C cells i j c :
  wf R C cells -> cellAt cells i j = Some c -> wf R C (published i j c cells).
Proof. intros Hwf Hc. by eapply wf_store. Qed.

Lemma checkState_wf R C cells i j c :
  wf R C cells -> cellAt cells i j = Some c ->
  checkState i j cells =
  Some (store i j
          (checked c (countAlive (published i j c cells) (examined R C i j)))
          cells).
Proof.
  intros Hwf Hc. unfold checkState. rewrite Hc. simpl.
  unfold set_alive, set_nextState. simpl.
  fold (published i j c cells).
  rewrite (liveNeighbors_examined R C _ i j).
  - simpl. unfold published. by rewrite store_store.
  - by apply wf_published.
  - unfold published. by eapply cellAt_store_eq.
Qed.

Lemma checkState_total R C cells i j :
  wf R C cells -> (i < R)%nat -> (j < C)%nat ->
  exists c, cellAt cells i j = Some c.
Proof.
  intros [H1 _ _ H4 _] Hi Hj.
  destruct (lookup_lt_is_Some_2 cells i) as [row Hrow]; [lia|].
  destruct (lookup_lt_is_Some_2 row j) as [c Hc]; [rewrite (H4 _ _ Hrow); lia|].
  exists c. apply cellAt_Some. eauto.
Qed.

Lemma cellAt_wf_lt R C cells i j c :
  wf R C cells -> cellAt cells i j = Some c -> (i < R)%nat /\ (j < C)%nat.
Proof.
  intros [H1 _ _ H4 _] (row & Hi & Hj)%cellAt_Some. split.
  - rewrite <- H1. by eapply lookup_lt_Some.
  - rewrite <- (H4 _ _ Hi). by eapply lookup_lt_Some.
Qed.

(** What one call does to the grid: the frame, and the cell itself. *)
Lemma checkState_effect R C cells i j c :
  wf R C cells -> cellAt cells i j = Some c ->
  exists cells' n,
    checkState i j cells = Some cells' /\ wf R C cells' /\
    cellAt cells' i j = Some (checked c n) /\
    (forall i' j', (i, j) <> (i', j') ->
       cellAt cells' i' j' = cellAt cells i' j').
Proof.
  intros Hwf Hc. eexists _, _. split; [by apply (checkState_wf R C)|].
  split; [by eapply wf_store|]. split.
  - by eapply cellAt_store_eq.
  - intros i' j' Hne. by apply cellAt_store_ne.
Qed.

(** ** The loops *)

Lemma aliveAt_nextAt_checked cells cells' i j c n :
  cellAt cells i j = Some c -> cellAt cells' i j = Some (checked c n) ->
  aliveAt cells' i j = nextAt cells i j.
Proof. unfold aliveAt, nextAt. by intros -> ->. Qed.

Lemma checkRow_effect R C i js : forall cells,
  wf R C cells -> (i < R)%nat -> Forall (fun j => (j < C)%nat) js -> NoDup js ->
  exists cells',
    checkRow i js cells = Some cells' /\ wf R C cells' /\
    (forall i' j', (i' <> i \/ j' ∉ js) ->
       cellAt cells' i' j' = cellAt cells i' j') /\
    (forall j', j' ∈ js -> aliveAt cells' i j' = nextAt cells i j').
Proof.
  induction js as [|j js IH]; intros cells Hwf Hi Hjs Hnd.
  - exists cells. split; [done|]. split; [done|]. split; [done|].
    intros j' Hj'. by apply elem_of_nil in Hj'.
  - apply Forall_cons in Hjs as [Hj Hjs]. apply NoDup_cons in Hnd as [Hnj Hnd].
    destruct (checkState_total R C cells i j Hwf Hi Hj) as [c Hc].
    destruct (checkState_effect R C cells i j c Hwf Hc)
      as (cells1 & n & Hcs & Hwf1 & Hc1 & Hframe1).
    destruct (IH cells1 Hwf1 Hi Hjs Hnd) as (cells' & Hrun & Hwf' & Hframe & Hpub).
    exists cells'. simpl. rewrite Hcs. simpl.
    split; [done|]. split; [done|]. split.
    + intros i' j' Hout. rewrite Hframe, Hframe1; [done| |].
      * intros [= <- <-]. destruct Hout as [?|Hout]; [done|].
        apply Hout. by left.
      * destruct Hout as [?|Hout]; [by left|]. right. intros ?.
        apply Hout. by right.
    + intros j' [->|Hin]%elem_of_cons.
      * unfold aliveAt. rewrite Hframe by (by right). fold (aliveAt cells1 i j).
        by eapply aliveAt_nextAt_checked.
      * rewrite (Hpub j' Hin). unfold nextAt. rewrite Hframe1; [done|].
        intros [= <-]. done.
Qed.

Lemma checkRows_effect R C ks : forall cells,
  wf R C cells -> Forall (fun i => (i < R)%nat) ks -> NoDup ks ->
  exists cells',
    checkRows ks cells = Some cells' /\ wf R C cells' /\
    (forall i j, i ∉ ks -> cellAt cells' i j = cellAt cells i j) /\
    (forall i j, i ∈ ks -> (j < C)%nat -> aliveAt cells' i j = nextAt cells i j).
Proof.
  induction ks as [|i ks IH]; intros cells Hwf Hks Hnd.
  - exists cells. split; [done|]. split; [done|]. split; [done|].
    intros i j Hi. by apply elem_of_nil in Hi.
  - apply Forall_cons in Hks as [Hi Hks]. apply NoDup_cons in Hnd as [Hni Hnd].
    destruct (lookup_lt_is_Some_2 cells i) as [row Hrow].
    { rewrite (wf_rows _ _ _ Hwf). lia. }
    pose proof (wf_columns _ _ _ Hwf _ _ Hrow) as Hlen.
    destruct (checkRow_effect R C i (seq 0 C) cells Hwf Hi)
      as (cells1 & Hrun1 & Hwf1 & Hframe1 & Hpub1).
    { apply Forall_forall. intros j [_ ?]%elem_of_seq. lia. }
    { apply NoDup_seq. }
    destruct (IH cells1 Hwf1 Hks Hnd) as (cells' & Hrun & Hwf' & Hframe & Hpub).
    exists cells'. simpl. rewrite Hrow. simpl. rewrite Hlen, Hrun1. simpl.
    split; [done|]. split; [done|]. split.
    + intros i' j Hout. rewrite Hframe, Hframe1; [done| |].
      * left. intros ->. apply Hout. by left.
      * intros ?. apply Hout. by right.
    + intros i' j [->|Hin]%elem_of_cons Hj.
      * unfold aliveAt. rewrite Hframe by done. fold (aliveAt cells1 i j).
        apply Hpub1. apply elem_of_seq. lia.
      * rewrite (Hpub i' j Hin Hj). unfold nextAt. rewrite Hframe1; [done|].
        left. intros ->. done.
Qed.

(** A pass over a well-formed grid returns, keeps the grid well-formed, and
    publishes every pending state. *)
Lemma advance_effect R C cells :
  wf R C cells ->
  exists cells',
    advance cells = Some cells' /\ wf R C cells' /\
    (forall i j, aliveAt cells' i j = nextAt cells i j).
Proof.
  intros Hwf.
  destruct (checkRows_effect R C (seq 0 R) cells Hwf)
    as (cells' & Hrun & Hwf' & Hframe & Hpub).
  { apply Forall_forall. intros j [_ ?]%elem_of_seq. lia. }
  { apply NoDup_seq. }
  exists cells'. unfold advance. rewrite (wf_rows _ _ _ Hwf).
  split; [done|]. split; [done|]. intros i j.
  destruct (decide (i < R)%nat) as [Hi|Hi];
    [destruct (decide (j < C)%nat) as [Hj|Hj]|].
  - apply Hpub; [|done]. apply elem_of_seq. lia.
  - unfold aliveAt, nextAt.
    destruct (cellAt cells' i j) as [c'|] eqn:Hc'.
    { apply (cellAt_wf_lt R C) in Hc' as [_ ?]; done. }
    destruct (cellAt cells i j) as [c|] eqn:Hc; [|done].
    apply (cellAt_wf_lt R C) in Hc as [_ ?]; done.
  - unfold aliveAt, nextAt.
    destruct (cellAt cells' i j) as [c'|] eqn:Hc'.
    { apply (cellAt_wf_lt R C) in Hc' as [? _]; done. }
    destruct (cellAt cells i j) as [c|] eqn:Hc; [|done].
    apply (cellAt_wf_lt R C) in Hc as [? _]; done.
Qed.

(** ** Grids at rest *)

Lemma checkState_atRest R C cells i j c :
  wf R C cells -> atRest R C cells -> cellAt cells i j = Some c ->
  checkState i j cells = Some cells.
Proof.
  intros Hwf Hrest Hc. destruct (Hrest _ _ _ Hc) as [Hn Hr].
  rewrite (checkState_wf R C _ _ _ c) by done.
  assert (published i j c cells = cells) as ->.
  { unfold published. rewrite Hn.
    replace (mkCell _ _ _ _ _) with c by (by destruct c; simpl in *; subst).
    by apply store_id. }
  unfold checked. rewrite Hn, Hr.
  replace (mkCell _ _ _ _ _) with c by (by destruct c; simpl in *; subst).
  by rewrite store_id.
Qed.

Lemma checkRow_atRest R C cells i js :
  wf R C cells -> atRest R C cells -> (i < R)%nat ->
  Forall (fun j => (j < C)%nat) js ->
  checkRow i js cells = Some cells.
Proof.
  intros Hwf Hrest Hi. induction 1 as [|j js Hj _ IH]; [done|].
  destruct (checkState_total R C cells i j Hwf Hi Hj) as [c Hc].
  simpl. by rewrite (checkState_atRest R C _ _ _ c).
Qed.

Lemma checkRows_atRest R C cells ks :
  wf R C cells -> atRest R C cells ->
  Forall (fun i => (i < R)%nat) ks ->
  checkRows ks cells = Some cells.
Proof.
  intros Hwf Hrest. induction 1 as [|i ks Hi _ IH]; [done|].
  destruct (lookup_lt_is_Some_2 cells i) as [row Hrow].
  { rewrite (wf_rows _ _ _ Hwf). lia. }
  simpl. rewrite Hrow. simpl.
  rewrite (checkRow_atRest R C); [done..|].
  rewrite (wf_columns _ _ _ Hwf _ _ Hrow).
  apply Forall_forall. intros j [_ ?]%elem_of_seq. lia.
Qed.

Lemma advance_atRest R C cells :
  wf R C cells -> atRest R C cells -> advance cells = Some cells.
Proof.
  intros Hwf Hrest. unfold advance. apply (checkRows_atRest R C); [done..|].
  rewrite (wf_rows _ _ _ Hwf).
  apply Forall_forall. intros j [_ ?]%elem_of_seq. lia.
Qed.

Lemma advances_atRest R C cells n :
  wf R C cells -> atRest R C cells -> advances n cells = Some cells.
Proof.
  intros Hwf Hrest. induction n as [|n IH]; [done|].
  simpl. by rewrite (advance_atRest R C).
Qed.

(** ** Counting in a picture *)

Lemma offsets_small :
  Forall (fun d => (-1 <= fst d <= 1) /\ (-1 <= snd d <= 1)) offsets.
Proof. unfold offsets. repeat constructor; simpl; lia. Qed.

Lemma examined_in_range R C i j :
  (i < R)%nat -> (j < C)%nat ->
  Forall (fun p => 0 <= fst p < Z.of_nat R /\ 0 <= snd p < Z.of_nat C)
         (examined R C i j).
Proof.
  intros Hi Hj. unfold examined. apply Forall_fmap.
  eapply Forall_impl; [apply offsets_small|].
  intros [dx dy] [Hx Hy]. simpl in *.
  split; apply wrapIndex_range; lia.
Qed.

Lemma aliveZ_cellAt cells a b c :
  cellAt cells a b = Some c ->
  aliveZ cells (Z.of_nat a, Z.of_nat b) = alive c.
Proof.
  intros (row & Ha & Hb)%cellAt_Some. unfold aliveZ. simpl.
  by rewrite index_Some, Ha, index_Some, Hb.
Qed.

Lemma aliveZ_shows R C f cells p :
  wf R C cells -> shows f cells ->
  0 <= fst p < Z.of_nat R -> 0 <= snd p < Z.of_nat C ->
  aliveZ cells p = f (Z.to_nat (fst p)) (Z.to_nat (snd p)).
Proof.
  intros Hwf Hf Hx Hy. destruct p as [a b]. simpl in *.
  destruct (checkState_total R C cells (Z.to_nat a) (Z.to_nat b) Hwf)
    as [c Hc]; [lia..|].
  rewrite <- (Z2Nat.id a), <- (Z2Nat.id b) by lia.
  rewrite (aliveZ_cellAt _ _ _ c), !Nat2Z.id by done.
  by destruct (Hf _ _ _ Hc).
Qed.

Lemma countAlive_shows R C f cells i j :
  wf R C cells -> shows f cells -> (i < R)%nat -> (j < C)%nat ->
  countAlive cells (examined R C i j) = pictureCount f R C i j.
Proof.
  intros Hwf Hf Hi Hj. unfold pictureCount.
  pose proof (examined_in_range R C i j Hi Hj) as Hin.
  induction Hin as [|p ps [Hx Hy] _ IH]; [done|].
  rewrite countAlive_cons, IH. simpl.
  by rewrite (aliveZ_shows R C f).
Qed.

(** A picture that the rule leaves alone is a grid at rest. *)
Lemma shows_atRest R C f cells :
  wf R C cells -> shows f cells ->
  (forall i j, (i < R)%nat -> (j < C)%nat ->
     rule (f i j) (pictureCount f R C i j) (f i j) = f i j) ->
  atRest R C cells.
Proof.
  intros Hwf Hf Hrule i j c Hc.
  destruct (cellAt_wf_lt R C _ _ _ _ Hwf Hc) as [Hi Hj].
  destruct (Hf _ _ _ Hc) as [Ha Hn]. split; [congruence|].
  rewrite (countAlive_shows R C f), Ha by done. by apply Hrule.
Qed.

(** ** Grids built from a picture *)

Lemma cellAt_gridOf R C f i j c :
  cellAt (gridOf R C f) i j = Some c <->
  (i < R)%nat /\ (j < C)%nat /\
  c = mkCell 0 (f i j) (f i j) (Z.of_nat i) (Z.of_nat j).
Proof.
  rewrite cellAt_Some. unfold gridOf. split.
  - intros (row & Hi & Hj).
    apply list_lookup_fmap_Some in Hi as (i' & -> & [-> ?]%lookup_seq).
    apply list_lookup_fmap_Some in Hj as (j' & -> & [-> ?]%lookup_seq).
    done.
  - intros (Hi & Hj & ->). eexists. split.
    + rewrite list_lookup_fmap, lookup_seq_lt by done. done.
    + rewrite list_lookup_fmap, lookup_seq_lt by done. done.
Qed.

Lemma gridOf_wf R C f :
  Z.of_nat R <= GoInt.max_int -> Z.of_nat C <= GoInt.max_int ->
  wf R C (gridOf R C f).
Proof.
  intros HR HC. split; [|done|done| |].
  - unfold gridOf. by rewrite length_map, length_seq.
  - unfold gridOf. intros i row Hi.
    apply list_lookup_fmap_Some in Hi as (i' & -> & _).
    by rewrite length_map, length_seq.
  - intros i j c (_ & _ & ->)%cellAt_gridOf. done.
Qed.

Lemma gridOf_shows R C f : shows f (gridOf R C f).
Proof. intros i j c (_ & _ & ->)%cellAt_gridOf. done. Qed.

(** ** The block *)

(** Along one axis a cell and its two wrapped neighbours see the block in
    one of five ways. *)
Lemma span_triple R a i :
  (4 <= R)%nat -> (a + 1 < R)%nat -> (i < R)%nat ->
  let s d := span a (Z.to_nat (wrapIndex (Z.of_nat R) (Z.of_nat i + d))) in
  s 0 = span a i /\
  ((s (-1) = false /\ s 0 = false /\ s 1 = false) \/
   (s (-1) = false /\ s 0 = false /\ s 1 = true) \/
   (s (-1) = false /\ s 0 = true /\ s 1 = true) \/
   (s (-1) = true /\ s 0 = true /\ s 1 = false) \/
   (s (-1) = true /\ s 0 = false /\ s 1 = false)).
Proof.
  intros HR Ha Hi. simpl. unfold wrapIndex, span.
  repeat match goal with
    | |- context [Z.eqb ?u ?v] => destruct (Z.eqb_spec u v); try lia
    end.
  all: rewrite ?Z.add_0_r, ?Nat2Z.id.
  all: split; [done|].
  all: repeat match goal with
    | |- context [Nat.leb ?u ?v] => destruct (Nat.leb_spec u v)
    end; simpl; try lia; tauto.
Qed.

Lemma block_rule R C a b i j :
  (4 <= R)%nat -> (4 <= C)%nat -> (a + 1 < R)%nat -> (b + 1 < C)%nat ->
  (i < R)%nat -> (j < C)%nat ->
  rule (block a b i j) (pictureCount (block a b) R C i j) (block a b i j)
  = block a b i j.
Proof.
  intros HR HC Ha Hb Hi Hj.
  pose proof (span_triple R a i HR Ha Hi) as [Hi0 Hx].
  pose proof (span_triple C b j HC Hb Hj) as [Hj0 Hy].
  cbv zeta beta in Hi0, Hx, Hj0, Hy.
  unfold pictureCount, examined, offsets, block.
  cbn [map foldr fst snd]. rewrite <- Hi0, <- Hj0.
  destruct Hx as [(-> & -> & ->)|[(-> & -> & ->)|[(-> & -> & ->)|
                 [(-> & -> & ->)|(-> & -> & ->)]]]];
  destruct Hy as [(-> & -> & ->)|[(-> & -> & ->)|[(-> & -> & ->)|
                 [(-> & -> & ->)|(-> & -> & ->)]]]];
  reflexivity.
Qed.

(** ** Dead grids *)

Lemma dead_rule R C i j :
  rule (dead i j) (pictureCount dead R C i j) (dead i j) = dead i j.
Proof. reflexivity. Qed.

(** ** makeCells *)

Lemma Qlt_bool_iff a b : Qlt_bool a b = true <-> (a < b)%Q.
Proof.
  unfold Qlt_bool. rewrite negb_true_iff, <- not_true_iff_false, Qle_bool_iff.
  split; [apply Qnot_le_lt | apply Qlt_not_le].
Qed.

Section MakeCells.

Variables (rows columns : nat) (threshold : Q) (makeVao : Z -> Z -> N).


(** The inner loop appends to row [x] one cell per draw. *)
Lemma makeCells_columns_spec n : forall x y cells r,
  makeCells_columns threshold makeVao n x y cells r =
  (alter (fun row =>
            row ++ map (fun k => drawn threshold makeVao x (y + k) (r k)) (seq 0 n)) x cells,
   fun k => r (n + k)%nat).
Proof.
  induction n as [|n IH]; intros x0 y0 cells r.
  - simpl. f_equal. symmetry. apply list_alter_id. intros row.
    apply app_nil_r.
  - simpl. rewrite IH. f_equal.
    rewrite list_alter_alter_eq. apply list_alter_ext; [|done].
    intros row _. simpl. rewrite <- app_assoc. simpl.
    rewrite Nat.add_0_r. do 2 f_equal.
    rewrite <- fmap_S_seq, <- list_fmap_compose.
    apply list_fmap_ext. intros _ k _. simpl. by rewrite Nat.add_succ_r.
Qed.

(** The outer loop fills the rows from [x] on, [columns] draws per row. *)
Lemma makeCells_rows_spec n : forall x cells r,
  length cells = (x + n)%nat ->
  (forall i, (x <= i < x + n)%nat -> cells !! i = Some []) ->
  let res := fst (makeCells_rows columns threshold makeVao n x cells r) in
  length res = (x + n)%nat /\
  (forall i, (i < x)%nat -> res !! i = cells !! i) /\
  (forall i, (x <= i < x + n)%nat ->
     res !! i =
     Some (map (fun j => drawn threshold makeVao i j (r ((i - x) * columns + j)%nat))
               (seq 0 columns))).
Proof.
  induction n as [|n IH]; intros x0 cells r Hlen Hempty.
  - simpl. split; [done|]. split; [done|]. intros i Hi. lia.
  - simpl. rewrite makeCells_columns_spec.
    set (cells1 := alter _ x0 cells).
    set (r1 := fun k => r (columns + k)%nat).
    destruct (IH (S x0) cells1 r1) as (H1 & H2 & H3).
    { unfold cells1. rewrite length_alter. lia. }
    { intros i Hi. unfold cells1. rewrite list_lookup_alter_ne by lia.
      apply Hempty. lia. }
    split; [lia|]. split.
    + intros i Hi. rewrite H2 by lia. unfold cells1.
      by rewrite list_lookup_alter_ne by lia.
    + intros i Hi. destruct (decide (i = x0)) as [->|Hne].
      * rewrite H2 by lia. unfold cells1.
        rewrite list_lookup_alter_eq, Hempty by lia. simpl. f_equal.
        apply list_fmap_ext. intros _ k _. simpl.
        by rewrite Nat.sub_diag.
      * rewrite H3 by lia. f_equal.
        apply list_fmap_ext. intros _ k _. unfold r1. do 2 f_equal.
        replace (i - x0)%nat with (S (i - S x0)) by lia. simpl. lia.
Qed.

(** [makeCells] builds [rows] rows of [columns] cells; the cell at
    [(i, j)] is made from draw number [i * columns + j]. *)
Lemma makeCells_cellAt r i j :
  (i < rows)%nat -> (j < columns)%nat ->
  cellAt (fst (makeCells rows columns threshold makeVao r)) i j =
  Some (drawn threshold makeVao i j (r (i * columns + j)%nat)).
Proof.
  intros Hi Hj. unfold makeCells.
  destruct (makeCells_rows_spec rows 0%nat (replicate rows []) r)
    as (_ & _ & H3).
  { by rewrite length_replicate. }
  { intros k Hk. apply lookup_replicate_2. lia. }
  unfold cellAt. rewrite H3 by lia. simpl.
  rewrite list_lookup_fmap, lookup_seq_lt by done. simpl.
  by rewrite Nat.sub_0_r.
Qed.

Lemma makeCells_shape r :
  length (fst (makeCells rows columns threshold makeVao r)) = rows /\
  forall i row, fst (makeCells rows columns threshold makeVao r) !! i = Some row -> length row = columns.
Proof.
  unfold makeCells.
  destruct (makeCells_rows_spec rows 0%nat (replicate rows []) r)
    as (H1 & _ & H3).
  { by rewrite length_replicate. }
  { intros k Hk. apply lookup_replicate_2. lia. }
  split; [done|]. intros i row Hrow.
  pose proof (lookup_lt_Some _ _ _ Hrow) as Hi.
  rewrite H3 in Hrow by lia. injection Hrow as <-.
  by rewrite length_map, length_seq.
Qed.

End MakeCells.

(** ** More on the store and on runs *)

(** The count does not see which pending state a cell carries. *)
Lemma aliveZ_store_alive cells i j c1 c2 p :
  alive c1 = alive c2 ->
  aliveZ (store i j c1 cells) p = aliveZ (store i j c2 cells) p.
Proof.
  intros Ha. unfold aliveZ, index, store. destruct p as [a b]. simpl.
  destruct (a <? 0); [done|].
  rewrite !list_lookup_alter. case_decide; [|done].
  destruct (cells !! i) as [row|]; [|done]. simpl.
  destruct (b <? 0); [done|].
  rewrite !list_lookup_insert. case_decide; [|done]. by rewrite Ha.
Qed.

Lemma countAlive_store_alive cells i j c1 c2 ps :
  alive c1 = alive c2 ->
  countAlive (store i j c1 cells) ps = countAlive (store i j c2 cells) ps.
Proof.
  intros Ha. induction ps as [|p ps IH]; [done|].
  by rewrite !countAlive_cons, IH, (aliveZ_store_alive _ _ _ c1 c2).
Qed.

Lemma examined_length R C i j : length (examined R C i j) = 8%nat.
Proof. done. Qed.

Lemma advances_total R C n : forall cells,
  wf R C cells ->
  exists cells', advances n cells = Some cells' /\ wf R C cells'.
Proof.
  induction n as [|n IH]; intros cells Hwf; [by exists cells|].
  destruct (advance_effect R C cells Hwf) as (cells1 & Hrun & Hwf1 & _).
  destruct (IH cells1 Hwf1) as (cells' & Hrun' & Hwf').
  exists cells'. simpl. by rewrite Hrun.
Qed.

Lemma rule_table a n : rule a n a = table a n.
Proof.
  unfold rule, table. destruct a; [|by destruct (n =? 3)].
  destruct (Z.ltb_spec n 2), (Z.eqb_spec n 2), (Z.eqb_spec n 3),
    (Z.gtb_spec n 3); simpl; try done; lia.
Qed.

(** * The claims *)

(** What [checkState] computes, with the count it used expressed in the
    grid it returns. *)
Lemma checkState_result R C cells i j c :
  wf R C cells -> cellAt cells i j = Some c ->
  exists cells' n,
    checkState i j cells = Some cells' /\ wf R C cells' /\
    cellAt cells' i j = Some (checked c n) /\
    liveNeighbors (checked c n) cells' = Some n /\ 0 <= n <= 8.
Proof.
  intros Hwf Hc.
  set (n := countAlive (published i j c cells) (examined R C i j)).
  exists (store i j (checked c n) cells), n.
  assert (wf R C (store i j (checked c n) cells)) as Hwf' by (by eapply wf_store).
  assert (cellAt (store i j (checked c n) cells) i j = Some (checked c n))
    as Hc' by (by eapply cellAt_store_eq).
  split; [by apply checkState_wf|]. split; [done|]. split; [done|]. split.
  - rewrite (liveNeighbors_examined R C _ i j) by done. f_equal.
    unfold n, published. by apply countAlive_store_alive.
  - pose proof (countAlive_range (published i j c cells) (examined R C i j)).
    rewrite examined_length in *. fold n in H. lia.
Qed.

(** C2: on a well-formed grid [checkState] returns, and the next state it
    leaves in the cell is the output of its branches for the cell's flag and
    its live-neighbour count [n], which lies in 0..8; for every count in
    0..8 that output is the B3/S23 table: a live cell dies for [n < 2] or
    [n > 3] and lives on for [n] 2 or 3; a dead cell is born exactly for
    [n = 3] and stays dead otherwise. *)
Theorem checkState_follows_table R C cells i j c :
  wf R C cells -> cellAt cells i j = Some c ->
  exists cells' c' n,
    checkState i j cells = Some cells' /\
    cellAt cells' i j = Some c' /\
    liveNeighbors c' cells' = Some n /\ 0 <= n <= 8 /\
    nextState c' = rule (alive c') n (alive c') /\
    (forall a m, 0 <= m <= 8 -> rule a m a = table a m) /\
    (alive c' = true ->
       (n < 2 \/ n > 3 -> nextState c' = false) /\
       (n = 2 \/ n = 3 -> nextState c' = true)) /\
    (alive c' = false -> (nextState c' = true <-> n = 3)).
Proof.
  intros Hwf Hc.
  destruct (checkState_result R C cells i j c Hwf Hc)
    as (cells' & n & Hrun & _ & Hc' & Hn & Hrange).
  exists cells', (checked c n), n.
  do 4 (split; [done|]).
  assert (nextState (checked c n) = table (alive (checked c n)) n) as Ht
    by apply rule_table.
  split; [done|]. split; [intros a m _; apply rule_table|].
  rewrite Ht. unfold table.
  split; intros ->.
  - split; intros Hcase.
    + destruct (Z.eqb_spec n 2), (Z.eqb_spec n 3); simpl; try done; lia.
    + destruct (Z.eqb_spec n 2), (Z.eqb_spec n 3); simpl; try done; lia.
  - destruct (Z.eqb_spec n 3); split; try done; lia.
Qed.

Lemma checkState_follows_table_witness :
  wf 3 3 (gridOf 3 3 blinkerV) /\
  cellAt (gridOf 3 3 blinkerV) 1 1 = Some (mkCell 0 false false 1 1) /\
  exists cells' c' n,
    checkState 1 1 (gridOf 3 3 blinkerV) = Some cells' /\
    cellAt cells' 1 1 = Some c' /\
    liveNeighbors c' cells' = Some n /\ 0 <= n <= 8 /\
    nextState c' = rule (alive c') n (alive c') /\
    (forall a m, 0 <= m <= 8 -> rule a m a = table a m) /\
    (alive c' = true ->
       (n < 2 \/ n > 3 -> nextState c' = false) /\
       (n = 2 \/ n = 3 -> nextState c' = true)) /\
    (alive c' = false -> (nextState c' = true <-> n = 3)).
Proof.
  assert (wf 3 3 (gridOf 3 3 blinkerV)) as Hwf
    by (apply gridOf_wf; vm_compute; discriminate).
  split; [exact Hwf|]. split; [reflexivity|].
  apply (checkState_follows_table 3 3 (gridOf 3 3 blinkerV) 1 1
           (mkCell 0 false false 1 1) Hwf).
  reflexivity.
Defined.

(** C3: on a grid of [R >= 1] rows and [C >= 1] columns, for the cell at an
    in-range [(i, j)], [liveNeighbors] reads the eight orthogonal and
    diagonal offsets, an index equal to the side wrapped to 0 and an index
    of -1 wrapped to the side minus one; every coordinate it reads lies in
    [0,R) x [0,C), so it does not panic; it returns the number of live
    cells among them, between 0 and 8; and for [(0, 0)] the wrapped
    neighbours [(R-1, C-1)], [(R-1, 0)] and [(0, C-1)] are among them. *)
Theorem liveNeighbors_torus R C cells i j :
  wf R C cells -> (1 <= R)%nat -> (1 <= C)%nat -> (i < R)%nat -> (j < C)%nat ->
  let w := wrapIndex (Z.of_nat R) in
  let v := wrapIndex (Z.of_nat C) in
  let x := Z.of_nat i in
  let y := Z.of_nat j in
  (w (Z.of_nat R) = 0 /\ w (-1) = Z.of_nat R - 1 /\
   v (Z.of_nat C) = 0 /\ v (-1) = Z.of_nat C - 1 /\
   (forall k, 0 <= k < Z.of_nat R -> w k = k) /\
   (forall k, 0 <= k < Z.of_nat C -> v k = k)) /\
  examined R C i j =
    [(w (x - 1), v y); (w (x + 1), v y); (w x, v (y + 1)); (w x, v (y - 1));
     (w (x - 1), v (y + 1)); (w (x + 1), v (y + 1));
     (w (x - 1), v (y - 1)); (w (x + 1), v (y - 1))] /\
  Forall (fun p => 0 <= fst p < Z.of_nat R /\ 0 <= snd p < Z.of_nat C)
         (examined R C i j) /\
  (exists c, cellAt cells i j = Some c /\
     liveNeighbors c cells = Some (countAlive cells (examined R C i j))) /\
  0 <= countAlive cells (examined R C i j) <= 8 /\
  (i = 0%nat -> j = 0%nat ->
     (Z.of_nat R - 1, Z.of_nat C - 1) ∈ examined R C i j /\
     (Z.of_nat R - 1, 0) ∈ examined R C i j /\
     (0, Z.of_nat C - 1) ∈ examined R C i j).
Proof.
  intros Hwf HR HC Hi Hj w v x0 y0.
  assert (w (Z.of_nat R) = 0 /\ w (-1) = Z.of_nat R - 1 /\
          v (Z.of_nat C) = 0 /\ v (-1) = Z.of_nat C - 1 /\
          (forall k, 0 <= k < Z.of_nat R -> w k = k) /\
          (forall k, 0 <= k < Z.of_nat C -> v k = k)) as Hwrap.
  { unfold w, v, wrapIndex. rewrite !Z.eqb_refl.
    destruct (Z.eqb_spec (-1) (Z.of_nat R)); [lia|].
    destruct (Z.eqb_spec (-1) (Z.of_nat C)); [lia|].
    repeat split; try done.
    - intros k Hk. destruct (Z.eqb_spec k (Z.of_nat R)); [lia|].
      destruct (Z.eqb_spec k (-1)); [lia|done].
    - intros k Hk. destruct (Z.eqb_spec k (Z.of_nat C)); [lia|].
      destruct (Z.eqb_spec k (-1)); [lia|done]. }
  assert (examined R C i j =
    [(w (x0 - 1), v y0); (w (x0 + 1), v y0); (w x0, v (y0 + 1));
     (w x0, v (y0 - 1)); (w (x0 - 1), v (y0 + 1)); (w (x0 + 1), v (y0 + 1));
     (w (x0 - 1), v (y0 - 1)); (w (x0 + 1), v (y0 - 1))]) as Hlist.
  { unfold examined, offsets, w, v, x0, y0. cbn [map fst snd].
    by rewrite !Z.add_0_r. }
  split; [done|]. split; [done|].
  split; [by apply examined_in_range|].
  split.
  { destruct (checkState_total R C cells i j Hwf Hi Hj) as [c Hc].
    exists c. split; [done|]. by apply liveNeighbors_examined. }
  split.
  { pose proof (countAlive_range cells (examined R C i j)) as Hr.
    rewrite examined_length in Hr. lia. }
  intros Hi0 Hj0. rewrite Hlist.
  destruct Hwrap as (_ & Hw1 & _ & Hv1 & Hw & Hv).
  assert (x0 = 0) as -> by (unfold x0; lia).
  assert (y0 = 0) as -> by (unfold y0; lia).
  change (0 - 1) with (-1). rewrite Hw1, Hv1, (Hw 0), (Hv 0) by lia.
  rewrite !elem_of_cons. tauto.
Qed.

Lemma liveNeighbors_torus_witness :
  wf 3 4 (gridOf 3 4 blinkerV) /\
  examined 3 4 0 0 =
    [(2, 0); (1, 0); (0, 1); (0, 3); (2, 1); (1, 1); (2, 3); (1, 3)] /\
  (exists c, cellAt (gridOf 3 4 blinkerV) 0 0 = Some c /\
     liveNeighbors c (gridOf 3 4 blinkerV) = Some 0).
Proof.
  assert (wf 3 4 (gridOf 3 4 blinkerV)) as Hwf
    by (apply gridOf_wf; vm_compute; discriminate).
  split; [exact Hwf|]. split; [reflexivity|].
  destruct (liveNeighbors_torus 3 4 (gridOf 3 4 blinkerV) 0 0 Hwf
              ltac:(lia) ltac:(lia) ltac:(lia) ltac:(lia))
    as (_ & _ & _ & (c & Hc & Hn) & _).
  exists c. split; [exact Hc|]. rewrite Hn. reflexivity.
Defined.

(** C9: when [checkState] returns, the cell's [alive] is the value its
    [nextState] held before the call and its [nextState] is the rule's
    output for that flag and the cell's count; so a whole pass leaves in
    every [alive] flag the [nextState] that the grid held before the pass:
    what is drawn after a pass is the state computed one pass earlier. *)
Theorem checkState_publishes_pending R C cells i j c :
  wf R C cells -> cellAt cells i j = Some c ->
  (exists cells' c' n,
     checkState i j cells = Some cells' /\
     cellAt cells' i j = Some c' /\
     alive c' = nextState c /\
     liveNeighbors c' cells' = Some n /\
     nextState c' = rule (alive c') n (alive c')) /\
  (exists cells',
     advance cells = Some cells' /\
     forall i' j', aliveAt cells' i' j' = nextAt cells i' j').
Proof.
  intros Hwf Hc. split.
  - destruct (checkState_result R C cells i j c Hwf Hc)
      as (cells' & n & Hrun & _ & Hc' & Hn & _).
    by exists cells', (checked c n), n.
  - destruct (advance_effect R C cells Hwf) as (cells' & Hrun & _ & Hpub).
    by exists cells'.
Qed.

Lemma checkState_publishes_pending_witness :
  wf 4 4 (gridOf 4 4 blinkerH) /\
  cellAt (gridOf 4 4 blinkerH) 2 2 = Some (mkCell 0 true true 2 2) /\
  exists cells',
    advance (gridOf 4 4 blinkerH) = Some cells' /\
    forall i' j', aliveAt cells' i' j' = nextAt (gridOf 4 4 blinkerH) i' j'.
Proof.
  assert (wf 4 4 (gridOf 4 4 blinkerH)) as Hwf
    by (apply gridOf_wf; vm_compute; discriminate).
  split; [exact Hwf|]. split; [reflexivity|].
  apply (checkState_publishes_pending 4 4 (gridOf 4 4 blinkerH) 2 2
           (mkCell 0 true true 2 2) Hwf).
  reflexivity.
Defined.

(** C8: a pass consults no random source: the successor is a function of
    the grid alone, so two runs from the same grid, for any number of
    passes, return and return the same grid. *)
Theorem advance_deterministic R C n cells1 cells2 :
  wf R C cells1 -> cells1 = cells2 ->
  exists cells',
    advances n cells1 = Some cells' /\ advances n cells2 = Some cells'.
Proof.
  intros Hwf <-. destruct (advances_total R C n cells1 Hwf) as (cells' & Hrun & _).
  by exists cells'.
Qed.

Lemma advance_deterministic_witness :
  wf 4 4 (gridOf 4 4 blinkerH) /\
  exists cells',
    advances 3 (gridOf 4 4 blinkerH) = Some cells' /\
    advances 3 (gridOf 4 4 blinkerH) = Some cells'.
Proof.
  assert (wf 4 4 (gridOf 4 4 blinkerH)) as Hwf
    by (apply gridOf_wf; vm_compute; discriminate).
  split; [exact Hwf|].
  apply (advance_deterministic 4 4 3 _ _ Hwf). reflexivity.
Defined.

(** C5: on a grid of at least 4 rows and 4 columns, the 2 by 2 block with
    every other cell dead is a fixed point of the pass: one pass, and so any
    number of passes, returns the very same grid. *)
Theorem block_is_still R C a b cells n :
  wf R C cells -> (4 <= R)%nat -> (4 <= C)%nat ->
  (a + 1 < R)%nat -> (b + 1 < C)%nat ->
  shows (block a b) cells ->
  advance cells = Some cells /\ advances n cells = Some cells.
Proof.
  intros Hwf HR HC Ha Hb Hf.
  assert (atRest R C cells) as Hrest.
  { apply (shows_atRest R C (block a b)); [done..|].
    intros i j Hi Hj. by apply block_rule. }
  split; [by apply (advance_atRest R C)|by apply (advances_atRest R C)].
Qed.

Lemma block_is_still_witness :
  wf 20 20 (gridOf 20 20 (block 3 3)) /\
  shows (block 3 3) (gridOf 20 20 (block 3 3)) /\
  advance (gridOf 20 20 (block 3 3)) = Some (gridOf 20 20 (block 3 3)) /\
  advances 7 (gridOf 20 20 (block 3 3)) = Some (gridOf 20 20 (block 3 3)).
Proof.
  assert (wf 20 20 (gridOf 20 20 (block 3 3))) as Hwf
    by (apply gridOf_wf; vm_compute; discriminate).
  split; [exact Hwf|]. split; [apply gridOf_shows|].
  apply (block_is_still 20 20 3 3 _ 7 Hwf); [lia..|apply gridOf_shows].
Defined.




(** C10: with at least 3 rows and 3 columns the eight coordinates that
    [liveNeighbors] reads for an in-range cell are pairwise distinct and
    none is the cell's own, so the count is a count of eight other cells;
    on the 1 by 1 grid all eight are the cell itself and a live cell counts
    itself 8 times. *)
Theorem examined_distinct R C cells i j c :
  wf R C cells -> (3 <= R)%nat -> (3 <= C)%nat ->
  cellAt cells i j = Some c ->
  (NoDup (examined R C i j) /\
   ((Z.of_nat i, Z.of_nat j) ∉ examined R C i j) /\
   liveNeighbors c cells = Some (countAlive cells (examined R C i j))) /\
  (examined 1 1 0 0 = replicate 8 (0, 0) /\
   liveNeighbors (mkCell 0 true true 0 0) (gridOf 1 1 (fun _ _ => true))
   = Some 8).
Proof.
  intros Hwf HR HC Hc. split; [|split; reflexivity].
  destruct (cellAt_wf_lt R C _ _ _ _ Hwf Hc) as [Hi Hj].
  split; [|split; [|by apply liveNeighbors_examined]].
  - unfold examined, offsets, wrapIndex. cbn [map fst snd].
    rewrite !Z.add_0_r.
    repeat match goal with
      | |- context [Z.eqb ?u ?v] => destruct (Z.eqb_spec u v); try lia
      end.
    all: repeat (apply NoDup_cons_2;
      [ intros Hin;
        repeat (apply elem_of_cons in Hin as [Hin|Hin];
                [injection Hin; intros; lia|]);
        by apply elem_of_nil in Hin | ]).
    all: apply NoDup_nil_2.
  - unfold examined, offsets, wrapIndex. cbn [map fst snd].
    rewrite !Z.add_0_r.
    repeat match goal with
      | |- context [Z.eqb ?u ?v] => destruct (Z.eqb_spec u v); try lia
      end.
    all: intros Hin;
      repeat (apply elem_of_cons in Hin as [Hin|Hin];
              [injection Hin; intros; lia|]);
      by apply elem_of_nil in Hin.
Qed.

Lemma examined_distinct_witness :
  wf 3 3 (gridOf 3 3 blinkerV) /\
  NoDup (examined 3 3 0 2) /\ ((0, 2) ∉ examined 3 3 0 2).
Proof.
  assert (wf 3 3 (gridOf 3 3 blinkerV)) as Hwf
    by (apply gridOf_wf; vm_compute; discriminate).
  split; [exact Hwf|].
  destruct (examined_distinct 3 3 (gridOf 3 3 blinkerV) 0 2
              (mkCell 0 false false 0 2) Hwf ltac:(lia) ltac:(lia)
              ltac:(reflexivity))
    as ((Hnd & Hself & _) & _).
  split; [exact Hnd|exact Hself].
Defined.

(** C7: with draws in [[0, 1)], [makeCells] builds [rows] rows of
    [columns] cells; the cell at [(i, j)] is alive exactly when its draw is
    strictly below the threshold, and its [nextState] equals its [alive];
    so threshold 0 gives an all-dead grid and threshold 1 an all-alive
    one. *)
Theorem makeCells_bernoulli rows columns threshold makeVao (r : rng) :
  (forall k, (0 <= r k)%Q /\ (r k < 1)%Q) ->
  let cells := fst (makeCells rows columns threshold makeVao r) in
  length cells = rows /\
  (forall i row, cells !! i = Some row -> length row = columns) /\
  (forall i j, (i < rows)%nat -> (j < columns)%nat ->
     exists c, cellAt cells i j = Some c /\
       (alive c = true <-> (r (i * columns + j)%nat < threshold)%Q) /\
       nextState c = alive c /\
       x c = Z.of_nat i /\ y c = Z.of_nat j) /\
  ((threshold == 0)%Q ->
     forall i j c, cellAt cells i j = Some c ->
       alive c = false /\ nextState c = false) /\
  ((threshold == 1)%Q ->
     forall i j c, cellAt cells i j = Some c ->
       alive c = true /\ nextState c = true).
Proof.
  intros Hdraw cells.
  destruct (makeCells_shape rows columns threshold makeVao r) as [Hlen Hrows].
  fold cells in Hlen, Hrows.
  assert (forall i j c, cellAt cells i j = Some c ->
            c = drawn threshold makeVao i j (r (i * columns + j)%nat)) as Hcell.
  { intros i j c Hc. pose proof Hc as (row & Hi & Hj)%cellAt_Some.
    pose proof (lookup_lt_Some _ _ _ Hi) as Hi'.
    pose proof (lookup_lt_Some _ _ _ Hj) as Hj'.
    rewrite (Hrows _ _ Hi) in Hj'. rewrite Hlen in Hi'.
    unfold cells in Hc. rewrite makeCells_cellAt in Hc by done. congruence. }
  split; [done|]. split; [done|]. split; [|split].
  - intros i j Hi Hj. eexists. split; [by apply makeCells_cellAt|].
    simpl. split; [apply Qlt_bool_iff|done].
  - intros H0 i j c Hc. rewrite (Hcell _ _ _ Hc). simpl.
    assert (Qlt_bool (r (i * columns + j)%nat) threshold = false) as ->; [|done].
    apply not_true_iff_false. rewrite Qlt_bool_iff, H0.
    apply Qle_not_lt, Hdraw.
  - intros H1 i j c Hc. rewrite (Hcell _ _ _ Hc). simpl.
    assert (Qlt_bool (r (i * columns + j)%nat) threshold = true) as ->; [|done].
    rewrite Qlt_bool_iff, H1. apply Hdraw.
Qed.

Lemma makeCells_bernoulli_witness :
  (forall k : nat, (0 <= 1 # 8)%Q /\ (1 # 8 < 1)%Q) /\
  picture (fst (makeCells 2 3 Main.threshold (fun _ _ => 1%N)
                  (fun _ => 1 # 8)))
  = [[true; true; true]; [true; true; true]] /\
  exists c,
    cellAt (fst (makeCells 2 3 Main.threshold (fun _ _ => 1%N)
                   (fun _ => 1 # 8))) 1 2 = Some c /\
    nextState c = alive c.
Proof.
  assert (forall k : nat, (0 <= 1 # 8)%Q /\ (1 # 8 < 1)%Q) as Hdraw
    by (intros _; split; reflexivity || (vm_compute; discriminate)).
  split; [exact Hdraw|]. split; [reflexivity|].
  destruct (makeCells_bernoulli 2 3 Main.threshold (fun _ _ => 1%N)
              (fun _ => 1 # 8) Hdraw)
    as (_ & _ & Hcells & _).
  destruct (Hcells 1%nat 2%nat ltac:(lia) ltac:(lia)) as (c & Hc & _ & Hn & _).
  exists c. split; [exact Hc|exact Hn].
Defined.

(** C1, on the code: the count is not taken against one grid state.  One
    pass after the grid of main.go's size showed the horizontal blinker, the
    dead cell [(1, 3)] has 2 live neighbours, and it has 2 in the grid that
    the second pass returns; yet in the second pass, by the time the loop
    reaches it, [(1, 2)] is already overwritten while [(2, 2)] and [(2, 3)]
    are not, its count is 3 and the pass computes it to be born. *)
Theorem count_taken_mid_pass :
  exists g1 gm g2 c,
    afterPasses 1 blinkerH = Some g1 /\
    cellAt g1 1 3 = Some c /\ alive c = false /\ nextState c = false /\
    liveNeighbors c g1 = Some 2 /\
    (g ← checkRows [0%nat] g1; checkRow 1 [0; 1; 2]%nat g) = Some gm /\
    aliveAt g1 1 2 = false /\ aliveAt gm 1 2 = true /\
    liveNeighbors c gm = Some 3 /\
    advance g1 = Some g2 /\
    liveNeighbors c g2 = Some 2 /\
    nextAt g2 1 3 = true.
Proof.
  eexists _, _, _, _.
  split; [vm_compute; reflexivity|].
  split; [reflexivity|]. do 3 (split; [reflexivity|]).
  split; [vm_compute; reflexivity|]. do 3 (split; [reflexivity|]).
  split; [vm_compute; reflexivity|]. split; reflexivity.
Qed.

(** C4, on the code: from the horizontal blinker the first pass leaves the
    [alive] flags as they were, the second shows the vertical blinker, and
    the third shows neither of the two. *)
Theorem blinker_does_not_oscillate :
  option_map picture (afterPasses 1 blinkerH)
  = Some (picture (gridOf Main.rows Main.columns blinkerH)) /\
  option_map picture (afterPasses 2 blinkerH)
  = Some (picture (gridOf Main.rows Main.columns blinkerV)) /\
  option_map picture (afterPasses 3 blinkerH)
  <> Some (picture (gridOf Main.rows Main.columns blinkerH)) /\
  option_map picture (afterPasses 3 blinkerH)
  <> Some (picture (gridOf Main.rows Main.columns blinkerV)) /\
  (g ← afterPasses 3 blinkerH;
   Some (aliveAt g 1 2, aliveAt g 1 3, aliveAt g 2 2, aliveAt g 3 2))
  = Some (true, true, true, false).
Proof.
  split; [vm_compute; reflexivity|]. split; [vm_compute; reflexivity|].
  split; [vm_compute; discriminate|]. split; [vm_compute; discriminate|].
  vm_compute; reflexivity.
Qed.

(** * Further properties *)

(** ** A pass, cell by cell *)

Lemma pendingZ_cellAt cells a b c :
  cellAt cells a b = Some c ->
  pendingZ cells (Z.of_nat a, Z.of_nat b) = nextState c.
Proof.
  intros (row & Ha & Hb)%cellAt_Some. unfold pendingZ. simpl.
  by rewrite index_Some, Ha, index_Some, Hb.
Qed.

Lemma countAlive_foldr cells (h : Z * Z -> bool) ps :
  Forall (fun p => aliveZ cells p = h p) ps ->
  countAlive cells ps = foldr (fun p n => Z.b2z (h p) + n) 0 ps.
Proof.
  induction 1 as [|p ps Hp _ IH]; [done|].
  rewrite countAlive_cons, IH, Hp. done.
Qed.

Lemma before_next i j i' j' :
  (i', j') <> (i, j) -> before i (S j) i' j' = before i j i' j'.
Proof.
  intros Hne. unfold before.
  destruct (Nat.ltb_spec i' i), (Nat.eqb_spec i' i),
    (Nat.ltb_spec j' (S j)), (Nat.ltb_spec j' j); simpl; try done; try lia.
  exfalso. apply Hne. f_equal; lia.
Qed.

Lemma before_row_end C i i' j' :
  (j' < C)%nat -> before i C i' j' = before (S i) 0 i' j'.
Proof.
  intros Hj. unfold before.
  destruct (Nat.ltb_spec i' i), (Nat.eqb_spec i' i), (Nat.ltb_spec j' C),
    (Nat.ltb_spec i' (S i)), (Nat.eqb_spec i' (S i)); simpl; try done; lia.
Qed.

(** The flags that [checkState] counts at [(i, j)], in terms of the grid
    the pass started from. *)
Lemma aliveZ_published_mid R C cells g i j c p :
  wf R C cells -> swept R C cells i j g -> cellAt cells i j = Some c ->
  0 <= fst p < Z.of_nat R -> 0 <= snd p < Z.of_nat C ->
  aliveZ (published i j c g) p = midAlive cells i j p.
Proof.
  intros Hwf [Hwfg Hg] Hc Hx Hy. destruct p as [pa pb]. simpl in Hx, Hy.
  destruct (checkState_total R C cells (Z.to_nat pa) (Z.to_nat pb) Hwf)
    as [d Hd]; [lia..|].
  unfold midAlive. simpl fst. simpl snd.
  set (a := Z.to_nat pa) in *. set (b := Z.to_nat pb) in *.
  replace pa with (Z.of_nat a) by (unfold a; lia).
  replace pb with (Z.of_nat b) by (unfold b; lia).
  rewrite (pendingZ_cellAt _ _ _ d), (aliveZ_cellAt cells _ _ d) by done.
  assert (cellAt g i j = Some c) as Hgc.
  { rewrite (Hg _ _ _ Hc). unfold before.
    rewrite Nat.ltb_irrefl, Nat.eqb_refl, Nat.ltb_irrefl. done. }
  destruct (decide ((i, j) = (a, b))) as [[= <- <-]|Hne].
  - rewrite !Nat.eqb_refl, orb_true_r.
    assert (d = c) as -> by congruence.
    rewrite (aliveZ_cellAt _ _ _
               (mkCell (drawable c) (nextState c) (nextState c) (x c) (y c)));
      [done|]. unfold published. by eapply cellAt_store_eq.
  - assert (((a =? i)%nat && (b =? j)%nat) = false) as ->.
    { destruct (Nat.eqb_spec a i), (Nat.eqb_spec b j); try done.
      exfalso. apply Hne. congruence. }
    rewrite orb_false_r.
    rewrite (aliveZ_cellAt _ _ _
               (if before i j a b then checked d (midCount cells R C a b)
                else d)).
    + by destruct (before i j a b).
    + unfold published. rewrite cellAt_store_ne by done. by apply Hg.
Qed.

Lemma checkState_swept R C cells g i j :
  wf R C cells -> swept R C cells i j g -> (i < R)%nat -> (j < C)%nat ->
  exists g', checkState i j g = Some g' /\ swept R C cells i (S j) g'.
Proof.
  intros Hwf Hsw Hi Hj. pose proof Hsw as [Hwfg Hg].
  destruct (checkState_total R C cells i j Hwf Hi Hj) as [c Hc].
  assert (cellAt g i j = Some c) as Hgc.
  { rewrite (Hg _ _ _ Hc). unfold before.
    rewrite Nat.ltb_irrefl, Nat.eqb_refl, Nat.ltb_irrefl. done. }
  assert (countAlive (published i j c g) (examined R C i j)
          = midCount cells R C i j) as Hn.
  { apply countAlive_foldr.
    eapply Forall_impl; [apply (examined_in_range R C i j Hi Hj)|].
    intros p [Hx Hy]. by apply (aliveZ_published_mid R C). }
  eexists. split; [by apply (checkState_wf R C)|]. rewrite Hn.
  split; [by eapply wf_store|].
  intros i' j' d Hd. destruct (decide ((i, j) = (i', j'))) as [[= <- <-]|Hne].
  - rewrite (cellAt_store_eq _ _ _ c) by done.
    assert (d = c) as -> by congruence.
    unfold before. rewrite Nat.eqb_refl.
    destruct (Nat.ltb_spec j (S j)); [|lia]. by rewrite orb_true_r.
  - rewrite cellAt_store_ne by done. rewrite before_next by congruence.
    by apply Hg.
Qed.

Lemma checkRow_swept R C cells i n : forall j g,
  wf R C cells -> swept R C cells i j g -> (i < R)%nat -> (j + n = C)%nat ->
  exists g', checkRow i (seq j n) g = Some g' /\ swept R C cells i C g'.
Proof.
  induction n as [|n IH]; intros j g Hwf Hsw Hi Hj.
  - exists g. split; [done|]. rewrite Nat.add_0_r in Hj. by subst j.
  - destruct (checkState_swept R C cells g i j Hwf Hsw Hi) as (g1 & Hrun & Hsw1);
      [lia|].
    destruct (IH (S j) g1 Hwf Hsw1 Hi) as (g' & Hrun' & Hsw'); [lia|].
    exists g'. simpl. rewrite Hrun. done.
Qed.

Lemma swept_row_end R C cells i g :
  wf R C cells -> swept R C cells i C g -> swept R C cells (S i) 0 g.
Proof.
  intros Hwf [Hwfg Hg]. split; [done|]. intros i' j' c Hc.
  destruct (cellAt_wf_lt R C _ _ _ _ Hwf Hc) as [_ Hj].
  rewrite <- (before_row_end C) by done. by apply Hg.
Qed.

Lemma checkRows_swept R C cells n : forall i g,
  wf R C cells -> swept R C cells i 0 g -> (i + n = R)%nat ->
  exists g', checkRows (seq i n) g = Some g' /\ swept R C cells R 0 g'.
Proof.
  induction n as [|n IH]; intros i g Hwf Hsw Hi.
  - exists g. split; [done|]. rewrite Nat.add_0_r in Hi. by subst i.
  - pose proof Hsw as [Hwfg _].
    destruct (lookup_lt_is_Some_2 g i) as [row Hrow].
    { rewrite (wf_rows _ _ _ Hwfg). lia. }
    destruct (checkRow_swept R C cells i C 0%nat g Hwf Hsw) as (g1 & Hrun & Hsw1);
      [lia..|].
    destruct (IH (S i) g1 Hwf (swept_row_end R C _ _ _ Hwf Hsw1))
      as (g' & Hrun' & Hsw'); [lia|].
    exists g'. simpl. rewrite Hrow. simpl.
    rewrite (wf_columns _ _ _ Hwfg _ _ Hrow), Hrun. done.
Qed.

Lemma advance_swept R C cells :
  wf R C cells ->
  exists cells', advance cells = Some cells' /\ swept R C cells R 0 cells'.
Proof.
  intros Hwf.
  destruct (checkRows_swept R C cells R 0%nat cells Hwf) as (g' & Hrun & Hsw);
    [|lia|].
  { split; [done|]. intros i j c Hc. unfold before.
    destruct (Nat.ltb_spec i 0); [lia|].
    destruct (Nat.ltb_spec j 0); [lia|]. by rewrite andb_false_r. }
  exists g'. unfold advance. by rewrite (wf_rows _ _ _ Hwf).
Qed.

Lemma swept_all R C cells cells' i j c :
  wf R C cells -> swept R C cells R 0 cells' -> cellAt cells i j = Some c ->
  cellAt cells' i j = Some (checked c (midCount cells R C i j)).
Proof.
  intros Hwf [_ Hg] Hc. rewrite (Hg _ _ _ Hc).
  destruct (cellAt_wf_lt R C _ _ _ _ Hwf Hc) as [Hi _].
  unfold before. by destruct (Nat.ltb_spec i R); [|lia].
Qed.

(** X1: a pass over a well-formed grid is a sweep in place, row by row:
    it returns, every cell keeps its [drawable] and coordinates, its
    [alive] becomes its old [nextState], and its [nextState] becomes the
    rule's output for the count in which the cell itself and the neighbours
    visited before it contribute their old [nextState] and the neighbours
    still to come their old [alive]. *)
Theorem advance_sweeps_in_place R C cells :
  wf R C cells ->
  exists cells',
    advance cells = Some cells' /\ wf R C cells' /\
    forall i j c, cellAt cells i j = Some c ->
      cellAt cells' i j =
      Some (mkCell (drawable c) (nextState c)
                   (table (nextState c) (midCount cells R C i j))
                   (x c) (y c)).
Proof.
  intros Hwf.
  destruct (advance_swept R C cells Hwf) as (cells' & Hrun & Hsw).
  exists cells'. split; [done|]. split; [by destruct Hsw|].
  intros i j c Hc. rewrite (swept_all R C cells cells' i j c) by done.
  unfold checked. by rewrite rule_table.
Qed.

Lemma advance_sweeps_in_place_witness :
  wf 4 4 (gridOf 4 4 blinkerH) /\
  exists cells',
    advance (gridOf 4 4 blinkerH) = Some cells' /\
    cellAt cells' 1 2 = Some (mkCell 0 false true 1 2).
Proof.
  assert (wf 4 4 (gridOf 4 4 blinkerH)) as Hwf
    by (apply gridOf_wf; vm_compute; discriminate).
  split; [exact Hwf|].
  destruct (advance_sweeps_in_place 4 4 (gridOf 4 4 blinkerH) Hwf)
    as (cells' & Hrun & _ & Hcells).
  exists cells'. split; [exact Hrun|].
  apply (Hcells 1%nat 2%nat (mkCell 0 false false 1 2)). reflexivity.
Defined.

(** ** The first passes after makeCells *)

Lemma index_lookup {A} (l : list A) z a :
  index l z = Some a -> l !! Z.to_nat z = Some a.
Proof. unfold index. by destruct (z <? 0). Qed.

Lemma pendingZ_fresh cells p : fresh cells -> pendingZ cells p = aliveZ cells p.
Proof.
  intros Hf. unfold pendingZ, aliveZ.
  destruct (index cells (fst p)) as [row|] eqn:Hrow; [|done].
  destruct (index row (snd p)) as [c|] eqn:Hc; [|done].
  apply (Hf (Z.to_nat (fst p)) (Z.to_nat (snd p))).
  apply cellAt_Some. exists row. split; by apply index_lookup.
Qed.

Lemma midCount_fresh R C cells i j :
  fresh cells -> midCount cells R C i j = countAlive cells (examined R C i j).
Proof.
  intros Hf. symmetry. apply countAlive_foldr, Forall_forall. intros p _.
  unfold midAlive. rewrite pendingZ_fresh by done. by destruct (_ || _).
Qed.

Lemma advance_fresh R C cells :
  wf R C cells -> fresh cells ->
  exists cells',
    advance cells = Some cells' /\ wf R C cells' /\
    forall i j c, cellAt cells i j = Some c ->
      cellAt cells' i j =
      Some (mkCell (drawable c) (alive c)
                   (table (alive c) (countAlive cells (examined R C i j)))
                   (x c) (y c)).
Proof.
  intros Hwf Hf.
  destruct (advance_swept R C cells Hwf) as (cells' & Hrun & Hsw).
  exists cells'. split; [done|]. split; [by destruct Hsw|].
  intros i j c Hc. rewrite (swept_all R C cells cells' i j c) by done.
  unfold checked. by rewrite rule_table, midCount_fresh, (Hf _ _ _ Hc).
Qed.

(** X2: on a well-formed grid without pending changes, the state
    [makeCells] returns, a pass leaves every [alive] flag as it is and
    computes in every [nextState] the B3/S23 successor of the whole grid:
    the table applied to the cell's flag and to the count that
    [liveNeighbors] gives on the grid before the pass. *)
Theorem first_pass_is_synchronous R C cells :
  wf R C cells -> fresh cells ->
  exists cells',
    advance cells = Some cells' /\ wf R C cells' /\
    forall i j c, cellAt cells i j = Some c ->
      exists n,
        liveNeighbors c cells = Some n /\
        cellAt cells' i j =
        Some (mkCell (drawable c) (alive c) (table (alive c) n) (x c) (y c)).
Proof.
  intros Hwf Hf.
  destruct (advance_fresh R C cells Hwf Hf) as (cells' & Hrun & Hwf' & Hc).
  exists cells'. split; [done|]. split; [done|]. intros i j c Hij.
  exists (countAlive cells (examined R C i j)).
  split; [by apply liveNeighbors_examined|by apply Hc].
Qed.

Lemma first_pass_is_synchronous_witness :
  wf 5 5 (gridOf 5 5 blinkerH) /\ fresh (gridOf 5 5 blinkerH) /\
  option_map picture (advance (gridOf 5 5 blinkerH))
  = Some (picture (gridOf 5 5 blinkerH)) /\
  option_map (map (map nextState)) (advance (gridOf 5 5 blinkerH))
  = Some (picture (gridOf 5 5 blinkerV)).
Proof.
  assert (wf 5 5 (gridOf 5 5 blinkerH)) as Hwf
    by (apply gridOf_wf; vm_compute; discriminate).
  assert (fresh (gridOf 5 5 blinkerH)) as Hf.
  { intros i j c Hc. destruct (gridOf_shows 5 5 blinkerH i j c Hc) as [-> ->].
    reflexivity. }
  split; [exact Hwf|]. split; [exact Hf|].
  destruct (first_pass_is_synchronous 5 5 (gridOf 5 5 blinkerH) Hwf Hf)
    as (cells' & Hrun & _ & _).
  rewrite Hrun. vm_compute in Hrun. injection Hrun as <-.
  split; reflexivity.
Defined.

(** X3: two passes after a well-formed grid without pending changes, every
    [alive] flag is the B3/S23 successor of the grid the passes started
    from: the second frame drawn is the true next generation. *)
Theorem second_pass_shows_successor R C cells :
  wf R C cells -> fresh cells ->
  exists cells'',
    advances 2 cells = Some cells'' /\
    forall i j c, cellAt cells i j = Some c ->
      exists n c'',
        liveNeighbors c cells = Some n /\
        cellAt cells'' i j = Some c'' /\
        alive c'' = table (alive c) n.
Proof.
  intros Hwf Hf.
  destruct (advance_fresh R C cells Hwf Hf) as (cells1 & Hrun1 & Hwf1 & Hc1).
  destruct (advance_swept R C cells1 Hwf1) as (cells2 & Hrun2 & Hsw2).
  exists cells2. split; [simpl; rewrite Hrun1; simpl; by rewrite Hrun2|].
  intros i j c Hij. exists (countAlive cells (examined R C i j)).
  eexists. split; [by apply liveNeighbors_examined|].
  split; [apply (swept_all R C cells1); [done..|by apply Hc1]|]. done.
Qed.

Lemma second_pass_shows_successor_witness :
  wf 5 5 (gridOf 5 5 blinkerH) /\ fresh (gridOf 5 5 blinkerH) /\
  option_map picture (advances 2 (gridOf 5 5 blinkerH))
  = Some (picture (gridOf 5 5 blinkerV)).
Proof.
  assert (wf 5 5 (gridOf 5 5 blinkerH)) as Hwf
    by (apply gridOf_wf; vm_compute; discriminate).
  assert (fresh (gridOf 5 5 blinkerH)) as Hf.
  { intros i j c Hc. destruct (gridOf_shows 5 5 blinkerH i j c Hc) as [-> ->].
    reflexivity. }
  split; [exact Hwf|]. split; [exact Hf|].
  destruct (second_pass_shows_successor 5 5 (gridOf 5 5 blinkerH) Hwf Hf)
    as (cells'' & Hrun & _).
  rewrite Hrun. vm_compute in Hrun. injection Hrun as <-. reflexivity.
Defined.

(** X4: a well-formed grid is a fixed point of the pass exactly when it is
    at rest: no cell has a pending change and the rule, on the count that
    [liveNeighbors] gives, keeps every cell as it is. *)
Theorem fixed_point_iff_atRest R C cells :
  wf R C cells ->
  (advance cells = Some cells <-> atRest R C cells).
Proof.
  intros Hwf. split; [|by apply advance_atRest].
  intros Hfix.
  destruct (advance_swept R C cells Hwf) as (cells' & Hrun & Hsw).
  assert (cells' = cells) as -> by congruence.
  assert (forall i j c, cellAt cells i j = Some c ->
            c = checked c (midCount cells R C i j)) as Hc.
  { intros i j c Hij. pose proof (swept_all R C cells cells i j c Hwf Hsw Hij).
    congruence. }
  assert (fresh cells) as Hf.
  { intros i j c Hij. pose proof (Hc _ _ _ Hij) as Hij'.
    apply (f_equal alive) in Hij'. done. }
  intros i j c Hij. split; [by apply (Hf i j)|].
  pose proof (Hc _ _ _ Hij) as Hij'.
  apply (f_equal nextState) in Hij'. simpl in Hij'.
  rewrite midCount_fresh, (Hf _ _ _ Hij) in Hij' by done.
  by symmetry.
Qed.

Lemma fixed_point_iff_atRest_witness :
  wf 4 4 (gridOf 4 4 (block 1 1)) /\
  (advance (gridOf 4 4 (block 1 1)) = Some (gridOf 4 4 (block 1 1)) <->
   atRest 4 4 (gridOf 4 4 (block 1 1))).
Proof.
  assert (wf 4 4 (gridOf 4 4 (block 1 1))) as Hwf
    by (apply gridOf_wf; vm_compute; discriminate).
  split; [exact Hwf|].
  apply (fixed_point_iff_atRest 4 4 _ Hwf).
Defined.

(** ** The bounds of liveNeighbors *)

Lemma wrap_succ z :
  GoInt.in_range z ->
  GoInt.wrap (z + 1) = if z =? GoInt.max_int then GoInt.min_int else z + 1.
Proof.
  intros Hz. destruct (Z.eqb_spec z GoInt.max_int) as [->|Hne]; [done|].
  apply wrap_in_range.
  unfold GoInt.in_range, GoInt.min_int, GoInt.max_int in *. lia.
Qed.

Lemma wrap_pred z :
  GoInt.in_range z ->
  GoInt.wrap (z - 1) = if z =? GoInt.min_int then GoInt.max_int else z - 1.
Proof.
  intros Hz. destruct (Z.eqb_spec z GoInt.min_int) as [->|Hne]; [done|].
  apply wrap_in_range.
  unfold GoInt.in_range, GoInt.min_int, GoInt.max_int in *. lia.
Qed.

(** A call of the closure that does not panic was given coordinates at most
    one step outside the grid. *)
Lemma add_Some_range R C cells xz yz k m :
  wf R C cells -> add cells xz yz k = Some m ->
  -1 <= xz <= Z.of_nat R /\ -1 <= yz <= Z.of_nat C.
Proof.
  intros [H1 H2 H3 H4 _]. unfold add, len. rewrite H1.
  destruct (index cells _) as [row|] eqn:Hrow; [|done]. simpl.
  destruct (index row _) as [c|] eqn:Hc; [|done]. intros _.
  apply index_in_range in Hc. unfold len in Hc.
  pose proof (index_lookup _ _ _ Hrow) as Hlen%H4.
  apply index_in_range in Hrow. unfold len in Hrow.
  rewrite H1 in Hrow. rewrite Hlen in Hc.
  destruct (Z.eqb_spec xz (Z.of_nat R)), (Z.eqb_spec xz (-1)),
    (Z.eqb_spec yz (Z.of_nat C)), (Z.eqb_spec yz (-1)); lia.
Qed.

(** X5: on a well-formed grid [liveNeighbors] returns exactly for a cell
    whose own coordinates lie in the grid; for any other cell, and on any
    empty grid, an index is out of range and the call panics. *)
Theorem liveNeighbors_returns_iff_in_grid R C cells c :
  wf R C cells -> GoInt.in_range (x c) -> GoInt.in_range (y c) ->
  (is_Some (liveNeighbors c cells) <->
   0 <= x c < Z.of_nat R /\ 0 <= y c < Z.of_nat C).
Proof.
  intros Hwf Hx Hy. split.
  - intros [n Hn]. unfold liveNeighbors, GoInt.sub, GoInt.add in Hn.
    destruct (add cells _ _ 0) as [n1|] eqn:E1; [|done]. simpl in Hn.
    destruct (add cells _ _ n1) as [n2|] eqn:E2; [|done]. simpl in Hn.
    destruct (add cells _ _ n2) as [n3|] eqn:E3; [|done]. simpl in Hn.
    destruct (add cells _ _ n3) as [n4|] eqn:E4; [|done]. clear Hn.
    apply (add_Some_range R C) in E1 as [E1 _]; [|done].
    apply (add_Some_range R C) in E2 as [E2 _]; [|done].
    apply (add_Some_range R C) in E3 as [_ E3]; [|done].
    apply (add_Some_range R C) in E4 as [_ E4]; [|done].
    rewrite wrap_pred in E1, E4 by done. rewrite wrap_succ in E2, E3 by done.
    pose proof (wf_rows_int _ _ _ Hwf). pose proof (wf_columns_int _ _ _ Hwf).
    unfold GoInt.in_range, GoInt.min_int, GoInt.max_int in *.
    destruct (Z.eqb_spec (x c) (2 ^ 63 - 1)), (Z.eqb_spec (x c) (- 2 ^ 63)),
      (Z.eqb_spec (y c) (2 ^ 63 - 1)), (Z.eqb_spec (y c) (- 2 ^ 63)); lia.
  - intros [Hi Hj].
    destruct (checkState_total R C cells (Z.to_nat (x c)) (Z.to_nat (y c)) Hwf)
      as [d Hd]; [lia..|].
    destruct (wf_coords _ _ _ Hwf _ _ _ Hd) as [Hdx Hdy].
    rewrite Z2Nat.id in Hdx, Hdy by lia.
    exists (countAlive cells
              (examined R C (Z.to_nat (x c)) (Z.to_nat (y c)))).
    rewrite <- (liveNeighbors_examined R C cells _ _ d) by done.
    unfold liveNeighbors. by rewrite Hdx, Hdy.
Qed.

Lemma liveNeighbors_returns_iff_in_grid_witness :
  wf 3 3 (gridOf 3 3 blinkerV) /\
  is_Some (liveNeighbors (mkCell 0 false false 2 1) (gridOf 3 3 blinkerV)) /\
  ~ is_Some (liveNeighbors (mkCell 0 false false 3 1) (gridOf 3 3 blinkerV)).
Proof.
  assert (wf 3 3 (gridOf 3 3 blinkerV)) as Hwf
    by (apply gridOf_wf; vm_compute; discriminate).
  split; [exact Hwf|].
  assert (forall z, 0 <= z <= 3 -> GoInt.in_range z) as Hr.
  { intros z Hz. unfold GoInt.in_range, GoInt.min_int, GoInt.max_int. lia. }
  split.
  - apply (liveNeighbors_returns_iff_in_grid 3 3 _ _ Hwf);
      simpl; [apply Hr; lia..|lia].
  - intros Hs.
    apply (liveNeighbors_returns_iff_in_grid 3 3 _ _ Hwf) in Hs;
      simpl in *; [lia|apply Hr; lia..].
Defined.

(** ** What makeCells returns *)

Section MakeCellsMore.

Variables (rows columns : nat) (threshold : Q) (makeVao : Z -> Z -> N).

Lemma makeCells_rows_rng n : forall x cells r k,
  snd (makeCells_rows columns threshold makeVao n x cells r) k
  = r (n * columns + k)%nat.
Proof.
  induction n as [|n IH]; intros x0 cells r k; [done|].
  simpl. rewrite makeCells_columns_spec, IH. f_equal. lia.
Qed.

Lemma makeCells_cell_inv r i j c :
  cellAt (fst (makeCells rows columns threshold makeVao r)) i j = Some c ->
  (i < rows)%nat /\ (j < columns)%nat /\
  c = drawn threshold makeVao i j (r (i * columns + j)%nat).
Proof.
  intros Hc.
  destruct (makeCells_shape rows columns threshold makeVao r) as [Hlen Hrows].
  pose proof Hc as (row & Hi & Hj)%cellAt_Some.
  pose proof (lookup_lt_Some _ _ _ Hi) as Hi'.
  pose proof (lookup_lt_Some _ _ _ Hj) as Hj'.
  rewrite (Hrows _ _ Hi) in Hj'. rewrite Hlen in Hi'.
  rewrite makeCells_cellAt in Hc by done. split; [done|]. split; [done|].
  congruence.
Qed.

Lemma makeCells_wf r :
  Z.of_nat rows <= GoInt.max_int -> Z.of_nat columns <= GoInt.max_int ->
  wf rows columns (fst (makeCells rows columns threshold makeVao r)).
Proof.
  intros HR HC.
  destruct (makeCells_shape rows columns threshold makeVao r) as [Hlen Hrows].
  split; [done..|]. by intros i j c (_ & _ & ->)%makeCells_cell_inv.
Qed.

Lemma makeCells_fresh r :
  fresh (fst (makeCells rows columns threshold makeVao r)).
Proof. by intros i j c (_ & _ & ->)%makeCells_cell_inv. Qed.

End MakeCellsMore.

(** X6: [makeCells] returns exactly the grid of [rows] rows of [columns]
    cells in which the cell at [(x, y)] is built from draw number
    [x * columns + y], and it takes exactly [rows * columns] draws from the
    generator: the draws left are the given ones from that number on. *)
Theorem makeCells_takes_draws_in_order rows columns threshold makeVao r :
  fst (makeCells rows columns threshold makeVao r)
  = map (fun x =>
           map (fun y =>
                  drawn threshold makeVao x y (r (x * columns + y)%nat))
               (seq 0 columns))
        (seq 0 rows) /\
  forall k,
    snd (makeCells rows columns threshold makeVao r) k
    = r (rows * columns + k)%nat.
Proof.
  split; [|intros k; apply makeCells_rows_rng].
  destruct (makeCells_shape rows columns threshold makeVao r) as [Hlen Hrows].
  apply list_eq. intros i.
  destruct (decide (i < rows)%nat) as [Hi|Hi].
  - rewrite list_lookup_fmap, lookup_seq_lt by done. simpl.
    destruct (lookup_lt_is_Some_2 (fst (makeCells rows columns threshold makeVao r)) i)
      as [row Hrow]; [lia|].
    rewrite Hrow. f_equal. apply list_eq. intros j.
    destruct (decide (j < columns)%nat) as [Hj|Hj].
    + rewrite list_lookup_fmap, lookup_seq_lt by done. simpl.
      rewrite <- (makeCells_cellAt rows columns threshold makeVao r i j) by done.
      unfold cellAt. by rewrite Hrow.
    + rewrite !lookup_ge_None_2; [done| |].
      * rewrite length_map, length_seq. lia.
      * rewrite (Hrows _ _ Hrow). lia.
  - rewrite !lookup_ge_None_2; [done| |lia].
    rewrite length_map, length_seq. lia.
Qed.

(** X7: the grid that [makeCells] returns is well-formed and carries no
    pending change, and no pass over it ever panics: any number of passes
    returns a well-formed grid of the same size. *)
Theorem passes_after_makeCells_never_panic rows columns threshold makeVao r n :
  Z.of_nat rows <= GoInt.max_int -> Z.of_nat columns <= GoInt.max_int ->
  let cells := fst (makeCells rows columns threshold makeVao r) in
  wf rows columns cells /\ fresh cells /\
  exists cells', advances n cells = Some cells' /\ wf rows columns cells'.
Proof.
  intros HR HC cells.
  assert (wf rows columns cells) as Hwf by (by apply makeCells_wf).
  split; [done|]. split; [apply makeCells_fresh|].
  by apply (advances_total rows columns).
Qed.

Lemma passes_after_makeCells_never_panic_witness :
  Z.of_nat Main.rows <= GoInt.max_int /\
  Z.of_nat Main.columns <= GoInt.max_int /\
  exists cells',
    advances 4 (fst (makeCells Main.rows Main.columns Main.threshold
                       (fun _ _ => 1%N) (fun k => Z.of_nat (k mod 3) # 8)))
    = Some cells' /\
    wf Main.rows Main.columns cells'.
Proof.
  assert (Z.of_nat Main.rows <= GoInt.max_int) as HR
    by (vm_compute; discriminate).
  assert (Z.of_nat Main.columns <= GoInt.max_int) as HC
    by (vm_compute; discriminate).
  split; [exact HR|]. split; [exact HC|].
  apply (passes_after_makeCells_never_panic Main.rows Main.columns
           Main.threshold (fun _ _ => 1%N)
           (fun k => Z.of_nat (k mod 3) # 8) 4 HR HC).
Defined.

(** ** Drawing *)

Lemma cell_draw_row row :
  concat (map cell_draw row)
  = concat (map (fun c => [BindVertexArray (drawable c); DrawArrays 4 0 6])
                (filter (fun c => alive c = true) row)).
Proof.
  induction row as [|c row IH]; [done|].
  rewrite filter_cons. simpl. rewrite IH. unfold cell_draw.
  destruct (decide (alive c = true)) as [->|Hc]; [done|].
  apply not_true_is_false in Hc. by rewrite Hc.
Qed.

Lemma cell_draw_grid cells :
  concat (map (fun row => concat (map cell_draw row)) cells)
  = concat (map (fun c => [BindVertexArray (drawable c); DrawArrays 4 0 6])
                (filter (fun c => alive c = true) (cellsInOrder cells))).
Proof.
  unfold cellsInOrder. induction cells as [|row cells IH]; [done|].
  simpl. rewrite filter_app, map_app, concat_app, IH, cell_draw_row. done.
Qed.

Lemma boundArrays_tiles (l : list cell) :
  boundArrays
    (concat (map (fun c => [BindVertexArray (drawable c); DrawArrays 4 0 6]) l))
  = map drawable l.
Proof.
  unfold boundArrays. induction l as [|c l IH]; [done|].
  cbn [map concat]. rewrite omap_app, IH. done.
Qed.

(** X8: [draw] clears, selects the program, then for every cell whose
    [alive] flag is set, in the order of the loops, binds the cell's vertex
    array and draws its 6 vertices as triangles, and at last polls the
    events and swaps the buffers; a cell that is not alive causes no
    call. *)
Theorem draw_draws_the_alive_cells cells program :
  draw cells program
  = [Clear 16640; UseProgram program]
    ++ concat (map (fun c => [BindVertexArray (drawable c); DrawArrays 4 0 6])
                   (filter (fun c => alive c = true) (cellsInOrder cells)))
    ++ [PollEvents; SwapBuffers] /\
  boundArrays (draw cells program)
  = map drawable (filter (fun c => alive c = true) (cellsInOrder cells)).
Proof.
  assert (draw cells program
          = [Clear 16640; UseProgram program]
            ++ concat (map (fun c => [BindVertexArray (drawable c);
                                      DrawArrays 4 0 6])
                           (filter (fun c => alive c = true)
                                   (cellsInOrder cells)))
            ++ [PollEvents; SwapBuffers]) as Hdraw.
  { unfold draw. by rewrite cell_draw_grid. }
  split; [done|]. rewrite Hdraw. unfold boundArrays.
  rewrite !omap_app. fold (boundArrays
    (concat (map (fun c => [BindVertexArray (drawable c); DrawArrays 4 0 6])
                 (filter (fun c => alive c = true) (cellsInOrder cells))))).
  rewrite boundArrays_tiles. simpl. by rewrite app_nil_r.
Qed.

Lemma boundArrays_draw cells program :
  boundArrays (draw cells program)
  = map drawable (filter (fun c => alive c = true) (cellsInOrder cells)).
Proof.
  unfold draw, boundArrays. rewrite cell_draw_grid, !omap_app.
  fold (boundArrays
    (concat (map (fun c => [BindVertexArray (drawable c); DrawArrays 4 0 6])
                 (filter (fun c => alive c = true) (cellsInOrder cells))))).
  rewrite boundArrays_tiles. simpl. by rewrite app_nil_r.
Qed.

(** Two grids of one shape agree under [f] and [g] when their cells do. *)
Lemma grid_map_ext {B} (f g : cell -> B) R C cells cells' :
  wf R C cells -> wf R C cells' ->
  (forall i j c c', cellAt cells i j = Some c -> cellAt cells' i j = Some c' ->
     f c' = g c) ->
  map (map f) cells' = map (map g) cells.
Proof.
  intros Hwf Hwf' Hfg. apply list_eq. intros i.
  rewrite !list_lookup_fmap.
  destruct (decide (i < R)%nat) as [Hi|Hi].
  - destruct (lookup_lt_is_Some_2 cells i) as [row Hrow].
    { rewrite (wf_rows _ _ _ Hwf). lia. }
    destruct (lookup_lt_is_Some_2 cells' i) as [row' Hrow'].
    { rewrite (wf_rows _ _ _ Hwf'). lia. }
    rewrite Hrow, Hrow'. simpl. f_equal. apply list_eq. intros j.
    rewrite !list_lookup_fmap.
    destruct (row !! j) as [c|] eqn:Hc.
    + destruct (lookup_lt_is_Some_2 row' j) as [c' Hc'].
      { rewrite (wf_columns _ _ _ Hwf' _ _ Hrow').
        rewrite <- (wf_columns _ _ _ Hwf _ _ Hrow). by eapply lookup_lt_Some. }
      rewrite Hc'. simpl. f_equal. apply (Hfg i j); apply cellAt_Some; eauto.
    + rewrite lookup_ge_None_2; [done|].
      rewrite (wf_columns _ _ _ Hwf' _ _ Hrow').
      rewrite <- (wf_columns _ _ _ Hwf _ _ Hrow). by apply lookup_ge_None_1.
  - rewrite !lookup_ge_None_2; [done| |].
    + rewrite (wf_rows _ _ _ Hwf). lia.
    + rewrite (wf_rows _ _ _ Hwf'). lia.
Qed.

Lemma filter_flags (l l' : list cell) :
  map (fun c => (drawable c, alive c)) l'
  = map (fun c => (drawable c, nextState c)) l ->
  map drawable (filter (fun c => alive c = true) l')
  = map drawable (filter (fun c => nextState c = true) l).
Proof.
  revert l'. induction l as [|c l IH]; intros [|c' l'] Hmap; try done.
  simpl in Hmap. injection Hmap as Hd Ha Hmap.
  rewrite !filter_cons, Ha.
  destruct (decide (nextState c = true)); simpl; rewrite (IH l') by done;
    by rewrite ?Hd.
Qed.

Lemma cellsInOrder_cellAt cells c :
  c ∈ cellsInOrder cells -> exists i j, cellAt cells i j = Some c.
Proof.
  unfold cellsInOrder. rewrite list_elem_of_In, in_concat.
  intros (row & Hrow & Hc).
  apply list_elem_of_In, list_elem_of_lookup in Hrow as [i Hi].
  apply list_elem_of_In, list_elem_of_lookup in Hc as [j Hj].
  exists i, j. apply cellAt_Some. eauto.
Qed.

(** X9: one round of [main]'s loop over a well-formed grid returns, and
    the vertex arrays it draws are those of the cells whose [nextState] was
    set before the round, in the order of the loops; on a grid without
    pending changes they are those of the cells alive before the round, so
    the first frame shows the grid as [makeCells] made it. *)
Theorem frame_draws_pending_states R C cells program :
  wf R C cells ->
  exists cells' calls,
    frame program cells = Some (cells', calls) /\
    boundArrays calls
    = map drawable (filter (fun c => nextState c = true) (cellsInOrder cells)) /\
    (fresh cells -> boundArrays calls = boundArrays (draw cells program)).
Proof.
  intros Hwf.
  destruct (advance_swept R C cells Hwf) as (cells' & Hrun & Hsw).
  exists cells', (draw cells' program).
  split; [unfold frame; by rewrite Hrun|].
  assert (boundArrays (draw cells' program)
          = map drawable
              (filter (fun c => nextState c = true) (cellsInOrder cells)))
    as Hdrawn.
  { rewrite boundArrays_draw. apply filter_flags. unfold cellsInOrder.
    rewrite !concat_map. f_equal.
    apply (grid_map_ext _ _ R C); [done|by destruct Hsw|].
    intros i j c c' Hc Hc'.
    rewrite (swept_all R C cells cells' i j c) in Hc' by done.
    by injection Hc' as <-. }
  split; [done|]. intros Hf. rewrite Hdrawn, boundArrays_draw.
  symmetry. apply filter_flags, list_fmap_ext. intros k c Hk.
  apply list_elem_of_lookup_2, cellsInOrder_cellAt in Hk as (i & j & Hc).
  by rewrite (Hf _ _ _ Hc).
Qed.

Lemma frame_draws_pending_states_witness :
  wf 4 4 (gridOf 4 4 blinkerH) /\
  exists cells' calls,
    frame 7 (gridOf 4 4 blinkerH) = Some (cells', calls) /\
    boundArrays calls = [0; 0; 0]%N.
Proof.
  assert (wf 4 4 (gridOf 4 4 blinkerH)) as Hwf
    by (apply gridOf_wf; vm_compute; discriminate).
  split; [exact Hwf|].
  destruct (frame_draws_pending_states 4 4 (gridOf 4 4 blinkerH) 7%N Hwf)
    as (cells' & calls & Hrun & Hdrawn & _).
  exists cells', calls. split; [exact Hrun|]. rewrite Hdrawn. reflexivity.
Defined.

(** ** A lone cell *)

Lemma examined_NoDup R C i j :
  (3 <= R)%nat -> (3 <= C)%nat -> (i < R)%nat -> (j < C)%nat ->
  NoDup (examined R C i j).
Proof.
  intros HR HC Hi Hj. unfold examined, offsets, wrapIndex. cbn [map fst snd].
  rewrite !Z.add_0_r.
  repeat match goal with
    | |- context [Z.eqb ?u ?v] => destruct (Z.eqb_spec u v); try lia
    end.
  all: repeat (apply NoDup_cons_2;
    [ intros Hin;
      repeat (apply elem_of_cons in Hin as [Hin|Hin];
              [injection Hin; intros; lia|]);
      by apply elem_of_nil in Hin | ]).
  all: apply NoDup_nil_2.
Qed.

Lemma foldr_flags_none (h : Z * Z -> bool) ps :
  (forall p, p ∈ ps -> h p = false) ->
  foldr (fun p n => Z.b2z (h p) + n) 0 ps = 0.
Proof.
  induction ps as [|p ps IH]; intros Hh; [done|].
  simpl. rewrite (Hh p), IH; [done| |by left].
  intros q Hq. apply Hh. by right.
Qed.

(** Among distinct coordinates, flags set at one place at most count to one
    at most. *)
Lemma foldr_flags_le_one (h : Z * Z -> bool) p0 ps :
  NoDup ps -> (forall p, p ∈ ps -> h p = true -> p = p0) ->
  0 <= foldr (fun p n => Z.b2z (h p) + n) 0 ps <= 1.
Proof.
  induction 1 as [|p ps Hp Hnd IH]; intros Hh; [simpl; lia|].
  simpl. destruct (h p) eqn:Hhp.
  - rewrite foldr_flags_none; [simpl; lia|].
    intros q Hq. apply not_true_is_false. intros Hhq.
    apply Hp. rewrite (Hh p) by (by left || done).
    rewrite <- (Hh q); [done|by right|done].
  - simpl. apply IH. intros q Hq. apply Hh. by right.
Qed.

Lemma aliveZ_true_inv cells p :
  aliveZ cells p = true ->
  exists i j c,
    p = (Z.of_nat i, Z.of_nat j) /\ cellAt cells i j = Some c /\
    alive c = true.
Proof.
  unfold aliveZ. destruct p as [pa pb]. simpl.
  destruct (index cells pa) as [row|] eqn:Hrow; [|done].
  destruct (index row pb) as [c|] eqn:Hc; [|done]. intros Ha.
  exists (Z.to_nat pa), (Z.to_nat pb), c.
  pose proof (index_in_range _ _ _ Hrow). pose proof (index_in_range _ _ _ Hc).
  split; [f_equal; lia|]. split; [|done].
  apply cellAt_Some. exists row. split; by apply index_lookup.
Qed.

Lemma pendingZ_true_inv cells p :
  pendingZ cells p = true ->
  exists i j c, cellAt cells i j = Some c /\ nextState c = true.
Proof.
  unfold pendingZ. destruct p as [pa pb]. simpl.
  destruct (index cells pa) as [row|] eqn:Hrow; [|done].
  destruct (index row pb) as [c|] eqn:Hc; [|done]. intros Ha.
  exists (Z.to_nat pa), (Z.to_nat pb), c. split; [|done].
  apply cellAt_Some. exists row. split; by apply index_lookup.
Qed.

Lemma table_le_one a n : 0 <= n <= 1 -> table a n = false.
Proof.
  intros Hn. unfold table.
  destruct (Z.eqb_spec n 2), (Z.eqb_spec n 3); try lia. by destruct a.
Qed.

(** X10: on a well-formed grid of at least 3 rows and 3 columns that shows
    one live cell and nothing else, two passes return a grid in which both
    flags of every cell are false, and every further pass returns that same
    grid: a lone cell dies and the grid stays dead. *)
Theorem lone_cell_dies R C a b cells n :
  wf R C cells -> (3 <= R)%nat -> (3 <= C)%nat -> shows (lone a b) cells ->
  exists cells2,
    advances 2 cells = Some cells2 /\ shows dead cells2 /\
    advances (2 + n) cells = Some cells2.
Proof.
  intros Hwf HR HC Hf.
  assert (fresh cells) as Hfresh.
  { intros i j c Hc. destruct (Hf _ _ _ Hc). congruence. }
  assert (forall g, wf R C g ->
            (forall i j c, cellAt g i j = Some c -> alive c = lone a b i j) ->
            forall p, aliveZ g p = true -> p = (Z.of_nat a, Z.of_nat b))
    as Hlone.
  { intros g Hg Hgl p (i & j & c & -> & Hc & Ha)%aliveZ_true_inv.
    rewrite (Hgl _ _ _ Hc) in Ha. unfold lone in Ha.
    apply andb_true_iff in Ha as [->%Nat.eqb_eq ->%Nat.eqb_eq]. done. }
  destruct (advance_fresh R C cells Hwf Hfresh) as (cells1 & Hrun1 & Hwf1 & Hc1).
  assert (forall i j c, cellAt cells1 i j = Some c ->
            alive c = lone a b i j /\ nextState c = false) as Hcells1.
  { intros i j c1 Hij1.
    destruct (cellAt_wf_lt R C _ _ _ _ Hwf1 Hij1) as [Hi Hj].
    destruct (checkState_total R C cells i j Hwf Hi Hj) as [c Hij].
    rewrite (Hc1 _ _ _ Hij) in Hij1. injection Hij1 as <-. simpl.
    split; [by destruct (Hf _ _ _ Hij)|].
    apply table_le_one.
    rewrite (countAlive_foldr cells (aliveZ cells))
      by (by apply Forall_forall).
    apply (foldr_flags_le_one _ (Z.of_nat a, Z.of_nat b));
      [by apply examined_NoDup|].
    intros p _. apply (Hlone cells Hwf). intros i' j' c' Hc'.
    by destruct (Hf _ _ _ Hc'). }
  destruct (advance_swept R C cells1 Hwf1) as (cells2 & Hrun2 & Hsw2).
  assert (shows dead cells2) as Hdead.
  { intros i j c2 Hij2. pose proof Hsw2 as [Hwf2 _].
    destruct (cellAt_wf_lt R C _ _ _ _ Hwf2 Hij2) as [Hi Hj].
    destruct (checkState_total R C cells1 i j Hwf1 Hi Hj) as [c1 Hij1].
    rewrite (swept_all R C cells1 cells2 i j c1) in Hij2 by done.
    injection Hij2 as <-. destruct (Hcells1 _ _ _ Hij1) as [_ Hn1].
    unfold checked, dead. simpl. rewrite Hn1. split; [done|].
    rewrite rule_table. apply table_le_one.
    apply (foldr_flags_le_one _ (Z.of_nat a, Z.of_nat b));
      [by apply examined_NoDup|].
    intros p _. unfold midAlive. destruct (_ || _).
    - intros (i' & j' & c' & Hc' & Hn')%pendingZ_true_inv.
      destruct (Hcells1 _ _ _ Hc'). congruence.
    - apply (Hlone cells1 Hwf1). intros i' j' c' Hc'.
      by destruct (Hcells1 _ _ _ Hc'). }
  exists cells2.
  assert (advances 2 cells = Some cells2) as Hrun.
  { simpl. rewrite Hrun1. simpl. by rewrite Hrun2. }
  split; [done|]. split; [done|].
  change (2 + n)%nat with (S (S n)). simpl. rewrite Hrun1. simpl.
  rewrite Hrun2. simpl. destruct Hsw2 as [Hwf2 _].
  apply (advances_atRest R C); [done|].
  apply (shows_atRest R C dead); [done..|]. intros i j _ _. apply dead_rule.
Qed.

Lemma lone_cell_dies_witness :
  wf 20 20 (gridOf 20 20 (lone 0 19)) /\
  shows (lone 0 19) (gridOf 20 20 (lone 0 19)) /\
  exists cells2,
    advances 2 (gridOf 20 20 (lone 0 19)) = Some cells2 /\
    shows dead cells2 /\
    advances (2 + 3) (gridOf 20 20 (lone 0 19)) = Some cells2.
Proof.
  assert (wf 20 20 (gridOf 20 20 (lone 0 19))) as Hwf
    by (apply gridOf_wf; vm_compute; discriminate).
  split; [exact Hwf|]. split; [apply gridOf_shows|].
  apply (lone_cell_dies 20 20 0 19 _ 3 Hwf); [lia..|apply gridOf_shows].
Defined.

(** ** The neighbourhood *)

Lemma wrapIndex_back R (i i' : nat) d :
  (i < R)%nat -> (i' < R)%nat -> -1 <= d <= 1 ->
  Z.of_nat i' = wrapIndex (Z.of_nat R) (Z.of_nat i + d) ->
  Z.of_nat i = wrapIndex (Z.of_nat R) (Z.of_nat i' + - d).
Proof.
  intros Hi Hi' Hd. unfold wrapIndex.
  destruct (Z.eqb_spec (Z.of_nat i + d) (Z.of_nat R)),
    (Z.eqb_spec (Z.of_nat i + d) (-1)),
    (Z.eqb_spec (Z.of_nat i' + - d) (Z.of_nat R)),
    (Z.eqb_spec (Z.of_nat i' + - d) (-1)); lia.
Qed.

Lemma offsets_opposite d : d ∈ offsets -> (- fst d, - snd d) ∈ offsets.
Proof.
  unfold offsets. rewrite !elem_of_cons, elem_of_nil.
  intros [->|[->|[->|[->|[->|[->|[->|[->|[]]]]]]]]]; simpl; auto 10.
Qed.

Lemma examined_back R C i j i' j' :
  (i < R)%nat -> (j < C)%nat -> (i' < R)%nat -> (j' < C)%nat ->
  (Z.of_nat i', Z.of_nat j') ∈ examined R C i j ->
  (Z.of_nat i, Z.of_nat j) ∈ examined R C i' j'.
Proof.
  intros Hi Hj Hi' Hj'. unfold examined.
  intros (d & [= Hx Hy] & Hd)%list_elem_of_fmap.
  apply list_elem_of_fmap. exists (- fst d, - snd d).
  split; [|by apply offsets_opposite].
  pose proof offsets_small as Hsmall.
  rewrite Forall_forall in Hsmall. destruct (Hsmall d Hd) as [Hdx Hdy].
  simpl. f_equal; by apply wrapIndex_back.
Qed.

(** X11: with the wrap of [liveNeighbors] the neighbourhood is symmetric on
    every grid: the cell at [(i', j')] is among the coordinates read for
    [(i, j)] exactly when [(i, j)] is among those read for [(i', j')]. *)
Theorem neighbourhood_is_symmetric R C i j i' j' :
  (i < R)%nat -> (j < C)%nat -> (i' < R)%nat -> (j' < C)%nat ->
  ((Z.of_nat i', Z.of_nat j') ∈ examined R C i j <->
   (Z.of_nat i, Z.of_nat j) ∈ examined R C i' j').
Proof. intros Hi Hj Hi' Hj'. split; by apply examined_back. Qed.

Lemma neighbourhood_is_symmetric_witness :
  ((0, 19) ∈ examined 20 20 19 0) /\ ((19, 0) ∈ examined 20 20 0 19).
Proof.
  assert ((0, 19) ∈ examined 20 20 19 0) as Hin.
  { unfold examined, offsets. vm_compute map. rewrite !elem_of_cons. tauto. }
  split; [exact Hin|].
  apply (neighbourhood_is_symmetric 20 20 19 0 0 19); [lia..|exact Hin].
Defined.

(** ** One call of checkState *)

(** X12: on a well-formed grid a call of [checkState] for the cell at
    [(i, j)] returns and writes to that cell only: every other cell is as
    before, the cell keeps its [drawable] and its coordinates, and the grid
    stays well-formed, with the same numbers of rows and columns. *)
Theorem checkState_writes_one_cell R C cells i j c :
  wf R C cells -> cellAt cells i j = Some c ->
  exists cells' c',
    checkState i j cells = Some cells' /\ wf R C cells' /\
    cellAt cells' i j = Some c' /\
    drawable c' = drawable c /\ x c' = x c /\ y c' = y c /\
    forall i' j', (i', j') <> (i, j) ->
      cellAt cells' i' j' = cellAt cells i' j'.
Proof.
  intros Hwf Hc.
  destruct (checkState_effect R C cells i j c Hwf Hc)
    as (cells' & n & Hrun & Hwf' & Hc' & Hframe).
  exists cells', (checked c n).
  do 3 (split; [done|]). do 3 (split; [done|]).
  intros i' j' Hne. apply Hframe. congruence.
Qed.

Lemma checkState_writes_one_cell_witness :
  wf 4 4 (gridOf 4 4 blinkerH) /\
  cellAt (gridOf 4 4 blinkerH) 2 2 = Some (mkCell 0 true true 2 2) /\
  exists cells',
    checkState 2 2 (gridOf 4 4 blinkerH) = Some cells' /\
    cellAt cells' 2 1 = cellAt (gridOf 4 4 blinkerH) 2 1.
Proof.
  assert (wf 4 4 (gridOf 4 4 blinkerH)) as Hwf
    by (apply gridOf_wf; vm_compute; discriminate).
  split; [exact Hwf|]. split; [reflexivity|].
  destruct (checkState_writes_one_cell 4 4 (gridOf 4 4 blinkerH) 2 2
              (mkCell 0 true true 2 2) Hwf ltac:(reflexivity))
    as (cells' & c' & Hrun & _ & _ & _ & _ & _ & Hframe).
  exists cells'. split; [exact Hrun|]. apply Hframe. discriminate.
Defined.
